(** * Snapchat downloader bot: rate limiter, content extractor, media
      fetcher and delivery loop

    A shallow embedding of [config.py], [telegram_bot.py] and
    [snapchat_downloader.py], followed by the properties of the
    specification that were checked against it.

    Conventions of the embedding:
    - Python [float] timestamps are exact rationals ([Q]);
    - Python [str] is [string] and text is taken to be ASCII: [lower],
      the class of white space and the case-insensitive comparison are
      those of the ASCII range;
    - a Python [dict] whose iteration order is observed is an association
      list, one that is only looked up is a [gmap];
    - an exception is a value of [exn] carried by [result]. *)

From Stdlib Require Import ZArith QArith Qcanon Qminmax Lqa Ascii String List Bool Lia.
From stdpp Require Import gmap strings list.

Local Open Scope Z_scope.

(** ** Exceptions *)

Inductive exn : Type :=
| TypeError
| AttributeError
| NameError
| JSONDecodeError
| OtherError.

Inductive result (A : Type) : Type :=
| Ok (a : A)
| Raise (e : exn).
Arguments Ok {A} a.
Arguments Raise {A} e.

(** Sequencing: the first exception raised is the one that propagates. *)
Definition bind {A B} (r : result A) (k : A -> result B) : result B :=
  match r with
  | Ok a => k a
  | Raise e => Raise e
  end.

Notation "'let*' x ':=' r 'in' k" := (bind r (fun x => k))
  (at level 10, x name, r at level 200, k at level 200,
   format "'[v' 'let*'  x  :=  r  'in' '/' k ']'").

(** ** config.py *)

Record Config := {
  MAX_FILE_SIZE : Z;
  CONCURRENT_DOWNLOADS : Z;
  REQUEST_TIMEOUT : Z;
  TEMP_DIR : string;
  REQUESTS_PER_MINUTE : Z;
  BURST_SIZE : Z
}.

Definition config : Config := {|
  MAX_FILE_SIZE := 100 * 1024 * 1024;
  CONCURRENT_DOWNLOADS := 3;
  REQUEST_TIMEOUT := 30;
  TEMP_DIR := "/tmp/snap_downloads";
  REQUESTS_PER_MINUTE := 20;
  BURST_SIZE := 5
|}.

(** ** telegram_bot.py: RateLimiter *)

Module RateLimiter.

(** [a < b] on timestamps, as a boolean. *)
Definition Qltb (a b : Q) : bool := negb (Qle_bool b a).

(** [current_time - t < 60]. Clock readings are exact rationals here;
    the floats of [datetime.now().timestamp()] round the difference,
    which can only tell at readings near 0, far from any the clock
    gives. *)
Definition in_window (current_time t : Q) : bool :=
  Qltb (current_time - t) 60.

(** [self.user_requests]: user id to the list of request instants. *)
Abbreviation state := (gmap Z (list Q)).

Definition requests_of (st : state) (user_id : Z) : list Q :=
  default [] (st !! user_id).

(** The comprehension [[t for t in self.user_requests[user_id]
    if current_time - t < 60]]. *)
Definition valid_requests (current_time : Q) (l : list Q) : list Q :=
  List.filter (in_window current_time) l.

(** [is_allowed], with the clock reading passed in; returns the answer
    and the state left behind. *)
Definition is_allowed (cfg : Config) (current_time : Q) (user_id : Z)
    (st : state) : bool * state :=
  let st1 := match st !! user_id with
             | None => <[user_id := []]> st
             | Some _ => st
             end in
  let kept := valid_requests current_time (requests_of st1 user_id) in
  let st2 := <[user_id := kept]> st1 in
  if Z.of_nat (length kept) >=? REQUESTS_PER_MINUTE cfg
  then (false, st2)
  else (true, <[user_id := kept ++ [current_time]]> st2).

(** Python's [min] over a non-empty list: the first smallest element. *)
Definition py_min (t : Q) (ts : list Q) : Q :=
  fold_left (fun m x => if Qltb x m then x else m) ts t.

(** Python's [max(0, x)]. *)
Definition py_max0 (x : Q) : Q := if Qltb 0 x then x else 0%Q.

Definition get_wait_time (current_time : Q) (user_id : Z) (st : state) : Q :=
  match st !! user_id with
  | None => 0%Q
  | Some l =>
      match valid_requests current_time l with
      | [] => 0%Q
      | t :: ts => py_max0 (60 - (current_time - py_min t ts))
      end
  end.

(** The user's instants that are still inside the 60-second window. *)
Definition window (now : Q) (user_id : Z) (st : state) : list Q :=
  valid_requests now (requests_of st user_id).

(** A user issuing requests at the successive instants [ts]. *)
Fixpoint run_requests (cfg : Config) (user_id : Z) (ts : list Q)
    (st : state) : list bool * state :=
  match ts with
  | [] => ([], st)
  | t :: ts' =>
      let '(b, st1) := is_allowed cfg t user_id st in
      let '(bs, st2) := run_requests cfg user_id ts' st1 in
      (b :: bs, st2)
  end.

End RateLimiter.

(** ** Python strings *)

Module PyStr.

(** The double quote, a one-character string. *)
Definition dq : string := String (ascii_of_nat 34) EmptyString.

Definition lower_char (c : ascii) : ascii :=
  let n := nat_of_ascii c in
  if ((65 <=? n) && (n <=? 90))%nat then ascii_of_nat (n + 32) else c.

(** [s.lower()] *)
Fixpoint lower (s : string) : string :=
  match s with
  | EmptyString => EmptyString
  | String c s' => String (lower_char c) (lower s')
  end.

(** [s.startswith(p)] *)
Fixpoint startswith (s p : string) : bool :=
  match p, s with
  | EmptyString, _ => true
  | String a p', String b s' => Ascii.eqb a b && startswith s' p'
  | String _ _, EmptyString => false
  end.

(** [sub in s] *)
Fixpoint contains (sub s : string) : bool :=
  startswith s sub ||
  match s with
  | EmptyString => false
  | String _ s' => contains sub s'
  end.

(** [s[:n]] *)
Fixpoint take (n : nat) (s : string) : string :=
  match n, s with
  | S n', String c s' => String c (take n' s')
  | _, _ => EmptyString
  end.

End PyStr.

(** ** Values returned by [json.loads] *)

Module Json.

(** A float is kept as the rational it denotes; the code only tests
    such a value for zero. An object keeps its entries in document
    order, which is the order [dict.items()] yields them in. *)
#[warnings="-register-all"] Inductive json : Type :=
| PNone
| PBool (b : bool)
| PInt (z : Z)
| PFloat (q : Q)
| PStr (s : string)
| PList (l : list json)
| PDict (kvs : list (string * json)).

(** Truth value of an object, as [if x], [x and ...], [x or ...] use it. *)
Definition truthy (v : json) : bool :=
  match v with
  | PNone => false
  | PBool b => b
  | PInt z => negb (z =? 0)
  | PFloat q => negb (Qeq_bool q 0)
  | PStr s => negb (String.eqb s "")
  | PList l => match l with [] => false | _ => true end
  | PDict kvs => match kvs with [] => false | _ => true end
  end.

(** [d.get(k)] on the entries of a dict: [None] when the key is absent. *)
Fixpoint lookup_key (k : string) (kvs : list (string * json)) : option json :=
  match kvs with
  | [] => None
  | (k', v) :: rest => if String.eqb k k' then Some v else lookup_key k rest
  end.

(** [item.get(k, dflt)]; only a dict has a [get] method. *)
Definition py_get (item : json) (k : string) (dflt : json) : result json :=
  match item with
  | PDict kvs => Ok (default dflt (lookup_key k kvs))
  | _ => Raise AttributeError
  end.

(** [a or b] *)
Definition py_or (a b : json) : json := if truthy a then a else b.

(** [x == 'literal'] for a str literal. *)
Definition eq_str (lit : string) (x : json) : bool :=
  match x with
  | PStr s => String.eqb s lit
  | _ => false
  end.

(** [lit in x] for a str literal: substring of a str, element of a list,
    key of a dict, and a [TypeError] on everything else. *)
Definition py_in (lit : string) (x : json) : result bool :=
  match x with
  | PStr s => Ok (PyStr.contains lit s)
  | PList l => Ok (existsb (eq_str lit) l)
  | PDict kvs => Ok (existsb (fun kv => String.eqb (fst kv) lit) kvs)
  | _ => Raise TypeError
  end.

(** [x[:n]]: a str and a list can be sliced. *)
Definition py_slice (n : nat) (x : json) : result json :=
  match x with
  | PStr s => Ok (PStr (PyStr.take n s))
  | PList l => Ok (PList (firstn n l))
  | _ => Raise TypeError
  end.

(** Hashable objects, up to Python's [==]: [True == 1 == 1.0]. *)
Inductive hkey : Type :=
| KNone
| KNum (q : Qc)
| KStr (s : string).

(** [hash(x)], which a set needs to look [x] up: lists and dicts have
    none. *)
Definition hash_key (x : json) : result hkey :=
  match x with
  | PNone => Ok KNone
  | PBool b => Ok (KNum (Q2Qc (inject_Z (Z.b2z b))))
  | PInt z => Ok (KNum (Q2Qc (inject_Z z)))
  | PFloat q => Ok (KNum (Q2Qc q))
  | PStr s => Ok (KStr s)
  | PList _ | PDict _ => Raise TypeError
  end.

#[export] Instance hkey_eq_dec : EqDecision hkey.
Proof. solve_decision. Defined.

Definition hkey_to_sum (k : hkey) : unit + (Qc + string) :=
  match k with
  | KNone => inl tt
  | KNum q => inr (inl q)
  | KStr s => inr (inr s)
  end.

Definition hkey_of_sum (x : unit + (Qc + string)) : hkey :=
  match x with
  | inl _ => KNone
  | inr (inl q) => KNum q
  | inr (inr s) => KStr s
  end.

#[export] Instance hkey_countable : Countable hkey.
Proof.
  apply (inj_countable' hkey_to_sum hkey_of_sum).
  intros []; reflexivity.
Defined.

End Json.

(** ** The fragment of Python's [re] that the patterns of the source use *)

Module Regex.

Record flags := { ignorecase : bool; dotall : bool }.

(** [re.IGNORECASE] and [re.DOTALL] *)
Definition IGNORECASE : flags := {| ignorecase := true; dotall := false |}.
Definition DOTALL : flags := {| ignorecase := false; dotall := true |}.

(** One-character classes: [.], [[^c]] and [\s]. *)
Inductive cclass : Type :=
| CAny
| CNot (c : ascii)
| CSpace.

(** The pieces a pattern is a sequence of: literal text, [c*], [c+] and
    the lazy [c*?] over a one-character class. *)
Inductive atom : Type :=
| Lit (s : string)
| Star (c : cclass)
| Plus (c : cclass)
| Lazy (c : cclass).

Abbreviation regex := (list atom).

(** Every pattern of the source has exactly one capture group:
    [before ( group ) after]. *)
Record pattern := { before : regex; group : regex; after : regex }.

(** The white space of [\s] and of [str.strip] among the ASCII
    characters: 9 to 13 and 28 to 32. Beyond ASCII Python also takes
    U+0085, U+00A0 and others. *)
Definition is_space (ch : ascii) : bool :=
  let n := nat_of_ascii ch in
  (((9 <=? n) && (n <=? 13)) || ((28 <=? n) && (n <=? 32)))%nat.

(** Two characters compared under the flags. On ASCII characters this
    is the comparison of [re.IGNORECASE]; beyond ASCII Python also takes
    U+017F for s and U+212A for k (see [PyAscii.isascii]). *)
Definition same_char (fl : flags) (a b : ascii) : bool :=
  if ignorecase fl
  then Ascii.eqb (PyStr.lower_char a) (PyStr.lower_char b)
  else Ascii.eqb a b.

Definition in_class (fl : flags) (c : cclass) (ch : ascii) : bool :=
  match c with
  | CAny => dotall fl || negb (Ascii.eqb ch (ascii_of_nat 10))
  | CNot x => negb (same_char fl x ch)
  | CSpace => is_space ch
  end.

(** A split of the input: what was consumed and what is left. *)
Abbreviation split := (list ascii * list ascii)%type.

Definition push (ch : ascii) (sp : split) : split := (ch :: fst sp, snd sp).

Fixpoint match_lit (fl : flags) (lit : list ascii) (s : list ascii)
    : list split :=
  match lit, s with
  | [], _ => [([], s)]
  | a :: lit', b :: s' =>
      if same_char fl a b then map (push b) (match_lit fl lit' s') else []
  | _ :: _, [] => []
  end.

(** All the ways [c*] can match at the head of [s], longest first. *)
Fixpoint match_star (fl : flags) (c : cclass) (s : list ascii) : list split :=
  match s with
  | [] => [([], [])]
  | ch :: s' =>
      if in_class fl c ch
      then map (push ch) (match_star fl c s') ++ [([], s)]
      else [([], s)]
  end.

(** All the ways [c*?] can match at the head of [s], shortest first. *)
Fixpoint match_lazy (fl : flags) (c : cclass) (s : list ascii) : list split :=
  match s with
  | [] => [([], [])]
  | ch :: s' =>
      if in_class fl c ch
      then ([], s) :: map (push ch) (match_lazy fl c s')
      else [([], s)]
  end.

Definition match_atom (fl : flags) (a : atom) (s : list ascii) : list split :=
  match a with
  | Lit l => match_lit fl (list_ascii_of_string l) s
  | Star c => match_star fl c s
  | Plus c =>
      match s with
      | ch :: s' =>
          if in_class fl c ch then map (push ch) (match_star fl c s') else []
      | [] => []
      end
  | Lazy c => match_lazy fl c s
  end.

(** All the matches of a sequence at the head of [s], in the order a
    backtracking matcher tries them. *)
Fixpoint run (fl : flags) (r : regex) (s : list ascii) : list split :=
  match r with
  | [] => [([], s)]
  | a :: r' =>
      flat_map (fun sp1 =>
                  map (fun sp2 => (fst sp1 ++ fst sp2, snd sp2))
                      (run fl r' (snd sp1)))
               (match_atom fl a s)
  end.

(** The candidate matches of a pattern at the head of [s]: the text of
    the group and the length of the whole match. *)
Definition matches_at (fl : flags) (p : pattern) (s : list ascii)
    : list (list ascii * nat) :=
  flat_map (fun sp0 =>
    flat_map (fun sp1 =>
      map (fun sp2 =>
             (fst sp1, length (fst sp0) + length (fst sp1) + length (fst sp2))%nat)
          (run fl (after p) (snd sp1)))
      (run fl (group p) (snd sp0)))
    (run fl (before p) s).

(** The scan of [findall]: leftmost match first, then on from where it
    ended ([skip] characters still belong to the previous match). *)
Fixpoint scan (fl : flags) (p : pattern) (skip : nat) (s : list ascii)
    : list string :=
  match skip with
  | S k =>
      match s with
      | [] => []
      | _ :: s' => scan fl p k s'
      end
  | O =>
      match matches_at fl p s with
      | (cap, n) :: _ =>
          string_of_list_ascii cap ::
          match s with
          | [] => []
          | _ :: s' => scan fl p (n - 1) s'
          end
      | [] =>
          match s with
          | [] => []
          | _ :: s' => scan fl p 0 s'
          end
      end
  end.

(** [re.findall(pattern, html, flags)] for a pattern with one group. *)
Definition findall (p : pattern) (html : string) (fl : flags) : list string :=
  scan fl p 0 (list_ascii_of_string html).

End Regex.

(** ** snapchat_downloader.py: the content extractor *)

Module Extractor.
Import PyStr Json Regex.

Inductive media_type : Type := video | image.

(** The dict an extraction strategy appends; a key the strategy does not
    set is [None] here. *)
Record MediaItem := {
  url : json;
  type : media_type;
  thumbnail : option json;
  description : option json;
  source : option string
}.

(** [x.lower()]: a method of str only. *)
Definition py_lower (x : json) : result string :=
  match x with
  | PStr s => Ok (lower s)
  | _ => Raise AttributeError
  end.

Definition _parse_json_item (item : json) (items_list : list MediaItem)
    : result (list MediaItem) :=
  let* t := py_get item "@type" (PStr "") in
  let* item_type := py_lower t in
  if existsb (String.eqb item_type) ["videoobject"; "imageobject"] then
    let* content_url := py_get item "contentUrl" PNone in
    let* plain_url := py_get item "url" PNone in
    let url := py_or content_url plain_url in
    if truthy url then
      let* has_http := py_in "http://" url in
      let* has_scheme := (if has_http then Ok true else py_in "https://" url) in
      if has_scheme then
        let* thumb := py_get item "thumbnailUrl" PNone in
        let* d := py_get item "description" (PStr "") in
        let* descr := py_slice 100 d in
        Ok (items_list ++
            [{| url := url;
                type := if contains "video" item_type then video else image;
                thumbnail := Some thumb;
                description := Some descr;
                source := None |}])
      else Ok items_list
    else Ok items_list
  else Ok items_list.

(** The key test of the traversal:
    [any(media_key in key_lower for media_key in [...])]. *)
Definition is_media_key (key_lower : string) : bool :=
  existsb (fun media_key => contains media_key key_lower)
          ["url"; "video"; "image"; "media"; "src"].

Definition json_item (key_lower value : string) : MediaItem :=
  {| url := PStr value;
     type := if contains "video" key_lower then video else image;
     thumbnail := None;
     description := None;
     source := Some "json" |}.

(** The recursive calls of the source pass [depth + 1] and leave
    [max_depth] to its default. *)
Fixpoint _traverse_json_for_media (data : json) (depth max_depth : nat)
    {struct data} : list MediaItem :=
  if (max_depth <? depth)%nat then []
  else
    match data with
    | PDict kvs =>
        (fix entries (kvs : list (string * json)) : list MediaItem :=
           match kvs with
           | [] => []
           | (key, value) :: rest =>
               let key_lower := lower key in
               (if is_media_key key_lower then
                  match value with
                  | PStr s =>
                      if startswith s "http" then [json_item key_lower s] else []
                  | _ => []
                  end
                else
                  match value with
                  | PDict _ | PList _ =>
                      _traverse_json_for_media value (S depth) 10
                  | _ => []
                  end)
               ++ entries rest
           end) kvs
    | PList l =>
        (fix elements (l : list json) : list MediaItem :=
           match l with
           | [] => []
           | item :: rest =>
               _traverse_json_for_media item (S depth) 10 ++ elements rest
           end) l
    | _ => []
    end.

(** The capture shared by the four embedded-state patterns: [({.*?})]. *)
Definition braces : regex := [Lit "{"; Lazy CAny; Lit "}"].

Definition js_patterns : list pattern :=
  [ {| before := [Lit "window.__INITIAL_STATE__"; Star CSpace; Lit "=";
                  Star CSpace];
       group := braces; after := [Lit ";"] |};
    {| before := [Lit "window.__PRELOADED_STATE__"; Star CSpace; Lit "=";
                  Star CSpace];
       group := braces; after := [Lit ";"] |};
    {| before := [Lit "var"; Plus CSpace; Lit "__DATA__"; Star CSpace;
                  Lit "="; Star CSpace];
       group := braces; after := [Lit ";"] |};
    {| before := [Lit "data:"; Star CSpace];
       group := braces;
       after := [Star CSpace; Lit ","; Star CSpace; Lit "error:"] |} ].

Definition quote : ascii := ascii_of_nat 34.

(** The capture of the direct patterns: the text https://, one or more
    characters other than the double quote, the extension, and any
    further characters other than the double quote. *)
Definition media_url (ext : string) : regex :=
  [Lit "https://"; Plus (CNot quote); Lit ext; Star (CNot quote)].

Definition attr (name : string) : string := name +:+ "=" +:+ dq.

Definition direct_pattern (lead : regex) (ext : string) : pattern :=
  {| before := lead; group := media_url ext; after := [Lit dq] |}.

Definition video_patterns : list pattern :=
  [ direct_pattern [Lit (dq +:+ "videoUrl" +:+ dq +:+ ":" +:+ dq)] ".mp4";
    direct_pattern [Lit (attr "src")] ".mp4";
    direct_pattern [Lit (attr "data-video-url")] ".mp4";
    direct_pattern
      [Lit (attr "property" +:+ "og:video" +:+ dq +:+ " " +:+ attr "content")]
      ".mp4";
    direct_pattern [Lit "<source"; Plus (CNot ">"%char); Lit (attr "src")] ".mp4" ].

Definition image_patterns : list pattern :=
  [ direct_pattern [Lit (dq +:+ "imageUrl" +:+ dq +:+ ":" +:+ dq)] ".jpg";
    direct_pattern [Lit (attr "src")] ".jpg";
    direct_pattern [Lit (attr "data-image-url")] ".jpg";
    direct_pattern
      [Lit (attr "property" +:+ "og:image" +:+ dq +:+ " " +:+ attr "content")]
      ".jpg";
    direct_pattern [Lit "<img"; Plus (CNot ">"%char); Lit (attr "src")] ".jpg" ].

Definition direct_item (t : media_type) (m : string) : MediaItem :=
  {| url := PStr m; type := t; thumbnail := None; description := None;
     source := None |}.

Definition _extract_direct_urls (html : string) : list MediaItem :=
  flat_map (fun pattern => map (direct_item video) (findall pattern html IGNORECASE))
           video_patterns
  ++
  flat_map (fun pattern => map (direct_item image) (findall pattern html IGNORECASE))
           image_patterns.

(** The de-duplication loop of [fetch_public_content]. *)
Fixpoint dedup_loop (media_items : list MediaItem) (seen_urls : gset hkey)
    (unique_items : list MediaItem) : result (list MediaItem) :=
  match media_items with
  | [] => Ok unique_items
  | item :: rest =>
      let* k := hash_key (url item) in
      if decide (k ∈ seen_urls)
      then dedup_loop rest seen_urls unique_items
      else dedup_loop rest ({[k]} ∪ seen_urls) (unique_items ++ [item])
  end.

(** The key the loop looks an item up by; [hashable] holds when the
    item has one. *)
Definition hashable (item : MediaItem) : Prop :=
  exists k, hash_key (url item) = Ok k.

Definition ukey (item : MediaItem) : hkey :=
  match hash_key (url item) with
  | Ok k => k
  | Raise _ => KNone
  end.

(** What the loop appends to [unique_items] when every url is hashable:
    the items whose key is neither in [seen] nor met earlier. *)
Fixpoint first_seen (seen : gset hkey) (items : list MediaItem)
    : list MediaItem :=
  match items with
  | [] => []
  | item :: rest =>
      if decide (ukey item ∈ seen) then first_seen seen rest
      else item :: first_seen ({[ukey item]} ∪ seen) rest
  end.

(** What the guard of [_parse_json_item] establishes of the url it
    appends. *)
Definition ld_url (u : json) : Prop :=
  truthy u = true /\
  (py_in "http://" u = Ok true \/ py_in "https://" u = Ok true).

(** What each strategy establishes of the url of a str it emits. *)
Definition ld_str (s : string) : Prop :=
  contains "http://" s = true \/ contains "https://" s = true.

Definition js_str (s : string) : Prop := startswith s "http" = true.

Definition direct_str (s : string) : Prop :=
  startswith (lower s) "https://" = true.

Definition url_is (P : string -> Prop) (item : MediaItem) : Prop :=
  exists s, url item = PStr s /\ P s.

Section Libraries.

(** What BeautifulSoup answers for a page: the [.string] of each
    script tag of type application/ld+json in document order ([None]
    for a tag without a single text child), or an exception. *)
Variable ld_json_scripts : string -> result (list (option string)).

(** [json.loads] on a str. *)
Variable json_loads : string -> result json.

(** [for item in data: self._parse_json_item(item, items)]: the items so
    far, and the exception that ended the loop if one did. *)
Fixpoint parse_each (data : list json) (items : list MediaItem)
    : list MediaItem * option exn :=
  match data with
  | [] => (items, None)
  | item :: rest =>
      match _parse_json_item item items with
      | Ok items' => parse_each rest items'
      | Raise e => (items, Some e)
      end
  end.

(** The body of the inner [try] for one script tag. *)
Definition script_step (script : option string) (items : list MediaItem)
    : list MediaItem * option exn :=
  match script with
  | None => (items, Some TypeError)
  | Some text =>
      match json_loads text with
      | Raise e => (items, Some e)
      | Ok (PList data) => parse_each data items
      | Ok (PDict kvs) =>
          match _parse_json_item (PDict kvs) items with
          | Ok items' => (items', None)
          | Raise e => (items, Some e)
          end
      | Ok _ => (items, None)
      end
  end.

(** The loop over the script tags: a [JSONDecodeError] is caught inside
    the loop, any other exception by the handler around it. *)
Fixpoint scripts_loop (script_tags : list (option string))
    (items : list MediaItem) : list MediaItem :=
  match script_tags with
  | [] => items
  | script :: rest =>
      match script_step script items with
      | (items', None) => scripts_loop rest items'
      | (items', Some JSONDecodeError) => scripts_loop rest items'
      | (items', Some _) => items'
      end
  end.

Definition _extract_json_ld (html : string) : list MediaItem :=
  match ld_json_scripts html with
  | Raise _ => []
  | Ok script_tags => scripts_loop script_tags []
  end.

Definition _extract_js_data (html : string) : list MediaItem :=
  flat_map (fun pattern =>
    flat_map (fun m =>
                match json_loads m with
                | Ok data => _traverse_json_for_media data 0 10
                | Raise _ => []
                end)
             (findall pattern html DOTALL))
    js_patterns.

(** [media_items] once the three strategies have extended it. *)
Definition media_items (html : string) : list MediaItem :=
  _extract_json_ld html ++ _extract_js_data html ++ _extract_direct_urls html.

(** Lines 45 to 65 of [fetch_public_content]. *)
Definition extract_body (html : string) : result (list MediaItem) :=
  let* unique_items := dedup_loop (media_items html) ∅ [] in
  Ok (firstn 15 unique_items).

(** The same lines under the handler of the enclosing [try]. *)
Definition extract (html : string) : list MediaItem :=
  match extract_body html with
  | Ok items => items
  | Raise _ => []
  end.

(** [page] is what [session.get] and [response.text()] give: an
    exception, or the status with the body. *)
Definition fetch_public_content (page : result (Z * result string))
    : list MediaItem :=
  match page with
  | Ok (status, Ok html) => if status =? 200 then extract html else []
  | Ok (status, Raise _) => []
  | Raise _ => []
  end.

End Libraries.

End Extractor.

(** ** Sample pages, with what the two parsing libraries answer on them *)

Module Samples.
Import PyStr Json Extractor.

(** [s] between double quotes. *)
Definition q (s : string) : string := dq +:+ s +:+ dq.

(** A script tag of type application/ld+json around [body]. *)
Definition ld_script (body : string) : string :=
  "<script type=" +:+ q "application/ld+json" +:+ ">" +:+ body +:+ "</script>".

(** A video object whose contentUrl is the number 12345. *)
Definition block_number_url : string :=
  "{" +:+ q "@type" +:+ ":" +:+ q "VideoObject" +:+ "," +:+
  q "contentUrl" +:+ ":12345}".

(** A well-formed video object. *)
Definition block_good : string :=
  "{" +:+ q "@type" +:+ ":" +:+ q "VideoObject" +:+ "," +:+
  q "contentUrl" +:+ ":" +:+ q "https://cdn.example/v.mp4" +:+ "}".

(** A video object whose contentUrl is a one-element list. *)
Definition block_list_url : string :=
  "{" +:+ q "@type" +:+ ":" +:+ q "VideoObject" +:+ "," +:+
  q "contentUrl" +:+ ":[" +:+ q "http://" +:+ "]}".

(** A video object whose contentUrl only mentions a scheme further in. *)
Definition block_inner_scheme : string :=
  "{" +:+ q "@type" +:+ ":" +:+ q "VideoObject" +:+ "," +:+
  q "contentUrl" +:+ ":" +:+ q "//cdn.example/v.mp4?ref=https://snapchat.com" +:+ "}".

(** An embedded state whose image entry starts with http but names no
    scheme. *)
Definition state_no_scheme : string :=
  "{" +:+ q "imageUrl" +:+ ":" +:+ q "httpdocs/a.jpg" +:+ "}".

Definition page_bad_then_good : string :=
  ld_script block_number_url +:+ ld_script block_good.

Definition page_good_alone : string := ld_script block_good.

Definition page_list_url : string :=
  ld_script block_list_url +:+
  "<video src=" +:+ q "https://cdn.example/clip.mp4" +:+ ">".

Definition page_no_scheme : string :=
  ld_script block_inner_scheme +:+
  "<script>window.__INITIAL_STATE__ = " +:+ state_no_scheme +:+ ";</script>".

Definition video_object (content_url : json) : json :=
  PDict [("@type", PStr "VideoObject"); ("contentUrl", content_url)].

(** [json.loads] on the texts of the sample pages; any other text of
    these pages is not JSON. *)
Definition json_loads (text : string) : result json :=
  if String.eqb text block_number_url then Ok (video_object (PInt 12345))
  else if String.eqb text block_good then
    Ok (video_object (PStr "https://cdn.example/v.mp4"))
  else if String.eqb text block_list_url then
    Ok (video_object (PList [PStr "http://"]))
  else if String.eqb text block_inner_scheme then
    Ok (video_object (PStr "//cdn.example/v.mp4?ref=https://snapchat.com"))
  else if String.eqb text state_no_scheme then
    Ok (PDict [("imageUrl", PStr "httpdocs/a.jpg")])
  else Raise JSONDecodeError.

(** The texts of the ld+json script tags BeautifulSoup finds on the
    sample pages. *)
Definition ld_json_scripts (html : string) : result (list (option string)) :=
  if String.eqb html page_bad_then_good then
    Ok [Some block_number_url; Some block_good]
  else if String.eqb html page_good_alone then Ok [Some block_good]
  else if String.eqb html page_list_url then Ok [Some block_list_url]
  else if String.eqb html page_no_scheme then Ok [Some block_inner_scheme]
  else Ok [].

End Samples.

(** ** snapchat_downloader.py: the media fetcher *)

Module Fetcher.
Import PyStr Json.

(** What a module-level name is bound to. *)
Inductive global_obj : Type :=
| GModule (name : string)
| GName (qualified : string)
| GConfig (c : Config).

(** The global namespace a function body resolves free names in. *)
Abbreviation namespace := (gmap string global_obj).

(** The names [snapchat_downloader.py] binds at module level: its
    import lines and its one class. *)
Definition snapchat_downloader_globals : namespace :=
  list_to_map
    [ ("aiohttp", GModule "aiohttp");
      ("asyncio", GModule "asyncio");
      ("re", GModule "re");
      ("json", GModule "json");
      ("hashlib", GModule "hashlib");
      ("Dict", GName "typing.Dict");
      ("List", GName "typing.List");
      ("Optional", GName "typing.Optional");
      ("Tuple", GName "typing.Tuple");
      ("BeautifulSoup", GName "bs4.BeautifulSoup");
      ("aiofiles", GModule "aiofiles");
      ("Path", GName "pathlib.Path");
      ("time", GModule "time");
      ("urlparse", GName "urllib.parse.urlparse");
      ("unquote", GName "urllib.parse.unquote");
      ("SnapchatDownloader", GName "SnapchatDownloader") ].

(** Evaluating the name [config] for an attribute access. *)
Definition global_config (g : namespace) : result Config :=
  match g !! "config" with
  | None => Raise NameError
  | Some (GConfig c) => Ok c
  | Some _ => Raise AttributeError
  end.

Abbreviation bytes := (list ascii).

(** What iterating [response.content.iter_chunked(8192)] yields next: a
    chunk, or an exception out of the transport. *)
Inductive stream_event : Type :=
| chunk (data : bytes)
| stream_error.

Record response := {
  status : Z;
  content_type : string;
  content : list stream_event
}.

(** The files on disk: path to contents. *)
Abbreviation files := (gmap string bytes).

(** The bytes of the chunks of a stream. *)
Fixpoint total_bytes (events : list stream_event) : Z :=
  match events with
  | [] => 0
  | chunk data :: rest => Z.of_nat (length data) + total_bytes rest
  | stream_error :: rest => total_bytes rest
  end.

Definition is_chunk (e : stream_event) : Prop :=
  match e with
  | chunk _ => True
  | stream_error => False
  end.

(** The stream delivers more than [limit] bytes before it fails, if it
    fails at all. *)
Definition exceeds (limit : Z) (events : list stream_event) : Prop :=
  exists k, Forall is_chunk (firstn k events) /\
            limit < total_bytes (firstn k events).

(** How the streaming loop was left. *)
Inductive loop_exit : Type := finished | oversize.

Section Libraries.

(** [Path(urlparse(url).path).suffix] *)
Variable url_suffix : json -> result string.

(** [str(Path(directory) / name)] *)
Variable path_join : string -> string -> string.

Definition extension (r : response) (url : json) : result string :=
  if contains "video" (content_type r) then Ok ".mp4"
  else if contains "image" (content_type r) then
    Ok (if contains "jpeg" (content_type r) then ".jpg" else ".png")
  else
    let* ext := url_suffix url in
    Ok (if String.eqb ext "" then ".mp4" else ext).

(** [await f.write(chunk)] on the file opened at [filepath]. *)
Definition write (filepath : string) (data : bytes) (fs : files) : files :=
  <[filepath := default [] (fs !! filepath) ++ data]> fs.

(** The [async for] loop over the chunks of the body. *)
Fixpoint write_chunks (g : namespace) (filepath : string)
    (events : list stream_event) (total_size : Z) (fs : files)
    : result loop_exit * files :=
  match events with
  | [] => (Ok finished, fs)
  | stream_error :: _ => (Raise OtherError, fs)
  | chunk [] :: rest => write_chunks g filepath rest total_size fs
  | chunk data :: rest =>
      let fs1 := write filepath data fs in
      let total_size := total_size + Z.of_nat (length data) in
      match global_config g with
      | Raise e => (Raise e, fs1)
      | Ok c =>
          if total_size >? MAX_FILE_SIZE c
          then (Ok oversize, delete filepath fs1)
          else write_chunks g filepath rest total_size fs1
      end
  end.

(** The path the fetch writes to, when its evaluation succeeds. *)
Definition destination (g : namespace) (r : response) (url : json)
    (filename : string) : result string :=
  let* ext := extension r url in
  let* c := global_config g in
  Ok (path_join (TEMP_DIR c) (filename +:+ ext)).

(** [download_media]: [got] is the outcome of [self.session.get]. The
    result is the returned path, if any, and the files left on disk. *)
Definition download_media (g : namespace) (url : json) (filename : string)
    (got : result response) (fs : files) : option string * files :=
  match got with
  | Raise _ => (None, fs)
  | Ok r =>
      if negb (status r =? 200) then (None, fs)
      else
        match destination g r url filename with
        | Raise _ => (None, fs)
        | Ok filepath =>
            match write_chunks g filepath (content r) 0 (<[filepath := []]> fs) with
            | (Raise _, fs1) => (None, fs1)
            | (Ok oversize, fs1) => (None, fs1)
            | (Ok finished, fs1) =>
                match fs1 !! filepath with
                | Some (_ :: _) => (Some filepath, fs1)
                | _ => (None, fs1)
                end
            end
        end
  end.

(** [download_media] as the bot calls it: in the namespace of its own
    module, on what [session_get] answers for the url. *)
Definition bot_download (session_get : json -> result response)
    (url : json) (filename : string) (fs : files)
    : result (option string) * files :=
  let '(path, fs1) :=
    download_media snapchat_downloader_globals url filename (session_get url) fs in
  (Ok path, fs1).

End Libraries.

End Fetcher.

(** ** telegram_bot.py: the delivery loop of [handle_message] *)

Module Orchestrator.
Import Json Extractor.

Record summary := { found : Z; succeeded : Z; failed : Z }.

Section Collaborators.

(** Whatever the collaborators read and change: disk, network, chat. *)
Variable world : Type.

(** [self.downloader.download_media(url, filename)] *)
Variable download_media : json -> string -> world -> result (option string) * world.

(** The file name built from the user id, the clock and the index. *)
Variable make_filename : Z -> nat -> world -> string.

(** [filepath.exists()] *)
Variable path_exists : string -> world -> bool.

(** [reply_video] and [reply_photo] on the opened file, with the
    username of the caption. *)
Variable reply_video : string -> string -> world -> result unit * world.
Variable reply_photo : string -> string -> world -> result unit * world.

(** [filepath.unlink()] with its errors swallowed. *)
Variable unlink : string -> world -> world.

(** The body of the per-item [try]: whether the item was relayed. *)
Definition process_item (user_id : Z) (username : string) (idx : nat)
    (item : MediaItem) (w : world) : bool * world :=
  let filename := make_filename user_id idx w in
  match download_media (url item) filename w with
  | (Raise _, w1) => (false, w1)
  | (Ok None, w1) => (false, w1)
  | (Ok (Some filepath), w1) =>
      if negb (path_exists filepath w1) then (false, w1)
      else
        let reply := match type item with
                     | video => reply_video
                     | image => reply_photo
                     end in
        match reply filepath username w1 with
        | (Raise _, w2) => (false, w2)
        | (Ok _, w2) => (true, unlink filepath w2)
        end
  end.

(** [for idx, item in enumerate(...)], with the counter and the items
    relayed so far. *)
Fixpoint deliver_loop (user_id : Z) (username : string) (idx : nat)
    (items : list MediaItem) (success_count : Z) (relayed : list MediaItem)
    (w : world) : Z * list MediaItem * world :=
  match items with
  | [] => (success_count, relayed, w)
  | item :: rest =>
      match process_item user_id username idx item w with
      | (true, w1) =>
          deliver_loop user_id username (S idx) rest (success_count + 1)
                       (relayed ++ [item]) w1
      | (false, w1) =>
          deliver_loop user_id username (S idx) rest success_count relayed w1
      end
  end.

(** The part of [handle_message] after a non-empty extraction: the
    summary shown to the user, the items relayed and the final world. *)
Definition deliver (user_id : Z) (username : string)
    (media_items : list MediaItem) (w : world)
    : summary * list MediaItem * world :=
  let '(success_count, relayed, w1) :=
    deliver_loop user_id username 0 (firstn 10 media_items) 0 [] w in
  ({| found := Z.of_nat (length media_items);
      succeeded := success_count;
      failed := Z.of_nat (length media_items) - success_count |},
   relayed, w1).

End Collaborators.

End Orchestrator.

(** ** snapchat_downloader.py: extract_username_from_url *)

Module Username.
Import PyStr.

(** The class of the username patterns: ASCII letters, digits,
    underscore, dot and hyphen. This is the class on ASCII text; under
    [re.IGNORECASE] Python's class also holds U+017F, U+212A, U+0130 and
    U+0131 (see [PyAscii.isascii]). *)
Definition is_name_char (c : ascii) : bool :=
  let n := nat_of_ascii c in
  (((97 <=? n) && (n <=? 122)) || ((65 <=? n) && (n <=? 90)) ||
   ((48 <=? n) && (n <=? 57)) || (n =? 95) || (n =? 46) || (n =? 45))%nat.

(** The longest run of name characters at the head of [s], which is
    what the greedy group of a pattern takes, and what follows it. *)
Fixpoint name_run (s : string) : string :=
  match s with
  | String c s' => if is_name_char c then String c (name_run s') else EmptyString
  | EmptyString => EmptyString
  end.

Fixpoint after_run (s : string) : string :=
  match s with
  | String c s' => if is_name_char c then after_run s' else s
  | EmptyString => EmptyString
  end.

(** The literal part of a pattern at the head of [s], letters compared
    without case: what is left of [s] after it. On ASCII text this is
    the comparison of [re.IGNORECASE]; beyond ASCII Python also takes
    U+017F for s and U+212A for k. *)
Fixpoint match_literal (lit s : string) : option string :=
  match lit, s with
  | EmptyString, _ => Some s
  | String a lit', String b s' =>
      if Ascii.eqb (lower_char a) (lower_char b) then match_literal lit' s'
      else None
  | String _ _, EmptyString => None
  end.

(** A pattern, the literal followed by one or more name characters, at
    the head of [s]: the text of the group. *)
Definition match_here (lit s : string) : option string :=
  match match_literal lit s with
  | Some rest =>
      match name_run rest with
      | EmptyString => None
      | name => Some name
      end
  | None => None
  end.

(** [re.search(pattern, text, re.IGNORECASE)]: the leftmost match, as
    its [group(1)]. *)
Fixpoint search (lit s : string) : option string :=
  match match_here lit s with
  | Some name => Some name
  | None =>
      match s with
      | EmptyString => None
      | String _ s' => search lit s'
      end
  end.

(** The literal parts of the four patterns, in the order of the list. *)
Definition patterns : list string :=
  ["snapchat.com/add/"; "snapchat.com/s/"; "snapchat.com/"; "@"].

(** The loop over the patterns: the first one that matches decides. *)
Fixpoint first_match (lits : list string) (text : string) : option string :=
  match lits with
  | [] => None
  | lit :: rest =>
      match search lit text with
      | Some name => Some name
      | None => first_match rest text
      end
  end.

Definition newline : string := String (ascii_of_nat 10) EmptyString.

(** The last test: 3 to 20 name characters from the start to the end
    of the text, where the end may also be just before a final newline. *)
Definition plain_username (text : string) : bool :=
  let n := String.length (name_run text) in
  (3 <=? n)%nat && (n <=? 20)%nat &&
  (String.eqb (after_run text) EmptyString || String.eqb (after_run text) newline).

Definition extract_username_from_url (text : string) : option string :=
  match first_match patterns text with
  | Some name => Some (lower name)
  | None => if plain_username text then Some (lower text) else None
  end.

End Username.

(** ** config.py: _parse_admin_ids *)

Module AdminIds.
Import PyStr.

(** [s.lstrip()], [s.rstrip()] and [s.strip()] on white space. *)
Fixpoint lstrip (s : string) : string :=
  match s with
  | String c s' => if Regex.is_space c then lstrip s' else s
  | EmptyString => EmptyString
  end.

Fixpoint rstrip (s : string) : string :=
  match s with
  | EmptyString => EmptyString
  | String c s' =>
      match rstrip s' with
      | EmptyString => if Regex.is_space c then EmptyString else String c EmptyString
      | kept => String c kept
      end
  end.

Definition strip (s : string) : string := rstrip (lstrip s).

Definition is_digit (c : ascii) : bool :=
  let n := nat_of_ascii c in ((48 <=? n) && (n <=? 57))%nat.

Fixpoint all_digits (s : string) : bool :=
  match s with
  | EmptyString => true
  | String c s' => is_digit c && all_digits s'
  end.

(** [s.isdigit()] on ASCII text: at least one character, and only
    digits. Beyond ASCII Python also takes digits such as U+0663 and
    U+00B2. *)
Definition isdigit (s : string) : bool :=
  negb (String.eqb s EmptyString) && all_digits s.

(** [int(s)] on a string of ASCII digits, most significant digit first.
    It is total here; Python raises ValueError on a run of digits longer
    than the conversion limit of the interpreter, and on digits such as
    U+00B2 that [str.isdigit] lets through. *)
Fixpoint int_from (acc : Z) (s : string) : Z :=
  match s with
  | EmptyString => acc
  | String c s' => int_from (10 * acc + (Z.of_nat (nat_of_ascii c) - 48)) s'
  end.

Definition py_int (s : string) : Z := int_from 0 s.

(** [s.split(",")]: the pieces between the commas, at least one. *)
Fixpoint split_comma (s : string) : list string :=
  match s with
  | EmptyString => [EmptyString]
  | String c s' =>
      if Ascii.eqb c ","%char then EmptyString :: split_comma s'
      else
        match split_comma s' with
        | piece :: rest => String c piece :: rest
        | [] => [String c EmptyString]
        end
  end.

Definition _parse_admin_ids (ids_str : string) : list Z :=
  if String.eqb ids_str EmptyString then []
  else
    flat_map (fun id => if isdigit (strip id) then [py_int (strip id)] else [])
             (split_comma ids_str).

End AdminIds.

(** ** telegram_bot.py: handle_message *)

Module Handler.
Import Json Extractor Orchestrator RateLimiter.

(** The texts the handler sends, by what they say. *)
Inductive message : Type :=
| unauthorized_text
| rate_limit_text (wait_time : Q)
| invalid_input_text
| searching_text (username : string)
| not_found_text (username : string)
| found_text (count : nat)
| result_text (username : string) (s : summary)
| error_text (e : exn).

(** The calls on the chat: a new message, an edit of the status
    message, the typing indicator. *)
Inductive chat_call : Type :=
| reply_text (m : message)
| edit_text (m : message)
| send_typing.

(** How the handler ended when it did not raise. *)
Inductive outcome : Type :=
| Unauthorized
| RateLimited
| InvalidInput
| NotFound
| Delivered (s : summary) (relayed : list MediaItem)
| Reported (e : exn).

(** [config.ADMIN_IDS and user_id not in config.ADMIN_IDS] *)
Definition refused (ADMIN_IDS : list Z) (user_id : Z) : bool :=
  match ADMIN_IDS with
  | [] => false
  | _ => negb (existsb (Z.eqb user_id) ADMIN_IDS)
  end.

Section Collaborators.

Variable world : Type.

(** The chat library: any call may raise. *)
Variable chat : chat_call -> world -> result unit * world.

(** [self.downloader.fetch_public_content(username)] *)
Variable fetch_public_content : string -> world -> result (list MediaItem) * world.

(** The collaborators of the delivery loop. *)
Variable download_media : json -> string -> world -> result (option string) * world.
Variable make_filename : Z -> nat -> world -> string.
Variable path_exists : string -> world -> bool.
Variable reply_video : string -> string -> world -> result unit * world.
Variable reply_photo : string -> string -> world -> result unit * world.
Variable unlink : string -> world -> world.

(** One chat call followed by the rest of the body. *)
Definition then_ {A} (step : result unit * world)
    (k : world -> result A * world) : result A * world :=
  match step with
  | (Ok _, w) => k w
  | (Raise e, w) => (Raise e, w)
  end.

(** The body of the [try] of [handle_message]. *)
Definition handle_body (user_id : Z) (text : string) (w : world)
    : result outcome * world :=
  match Username.extract_username_from_url text with
  | None | Some EmptyString =>
      then_ (chat (reply_text invalid_input_text) w)
            (fun w1 => (Ok InvalidInput, w1))
  | Some username =>
      then_ (chat (reply_text (searching_text username)) w) (fun w1 =>
      match fetch_public_content username w1 with
      | (Raise e, w2) => (Raise e, w2)
      | (Ok [], w2) =>
          then_ (chat (edit_text (not_found_text username)) w2)
                (fun w3 => (Ok NotFound, w3))
      | (Ok media_items, w2) =>
          then_ (chat (edit_text (found_text (length media_items))) w2) (fun w3 =>
          let '(s, relayed, w4) :=
            deliver world download_media make_filename path_exists
                    reply_video reply_photo unlink user_id username media_items w3 in
          then_ (chat (edit_text (result_text username s)) w4)
                (fun w5 => (Ok (Delivered s relayed), w5)))
      end)
  end.

(** [handle_message]: the two clock readings are the one of
    [is_allowed] and the one of [get_wait_time]. The result is how the
    handler ended, or the exception that left it, with the state of the
    rate limiter and the world. *)
Definition handle_message (ADMIN_IDS : list Z) (cfg : Config)
    (now_check now_wait : Q) (user_id : Z) (text : string)
    (st : state) (w : world) : result outcome * state * world :=
  if refused ADMIN_IDS user_id then
    let '(r, w1) := then_ (chat (reply_text unauthorized_text) w)
                          (fun w1 => (Ok Unauthorized, w1)) in
    (r, st, w1)
  else
    let '(allowed, st1) := is_allowed cfg now_check user_id st in
    if negb allowed then
      let wait_time := get_wait_time now_wait user_id st1 in
      let '(r, w1) := then_ (chat (reply_text (rate_limit_text wait_time)) w)
                            (fun w1 => (Ok RateLimited, w1)) in
      (r, st1, w1)
    else
      let text := AdminIds.strip text in
      match chat send_typing w with
      | (Raise e, w1) => (Raise e, st1, w1)
      | (Ok _, w1) =>
          match handle_body user_id text w1 with
          | (Ok o, w2) => (Ok o, st1, w2)
          | (Raise e, w2) =>
              let '(r, w3) := then_ (chat (reply_text (error_text e)) w2)
                                    (fun w3 => (Ok (Reported e), w3)) in
              (r, st1, w3)
          end
      end.

End Collaborators.

End Handler.

(** ** Runs of the rate limiter *)

Module LimiterRuns.
Import RateLimiter.

(** Requests of any users at any instants, handled one after the other:
    the state the limiter is left in. *)
Fixpoint run_events (cfg : Config) (events : list (Z * Q)) (st : state) : state :=
  match events with
  | [] => st
  | (user_id, now) :: rest =>
      run_events cfg rest (snd (is_allowed cfg now user_id st))
  end.

End LimiterRuns.

(** ** Shapes of texts, for the statements on usernames and admin ids *)

Module TextShapes.
Import PyStr Username.

(** Every character of [s] is a name character. *)
Fixpoint all_name (s : string) : bool :=
  match s with
  | EmptyString => true
  | String c s' => is_name_char c && all_name s'
  end.

(** [s] does not begin with a name character. *)
Definition stops_name (s : string) : bool :=
  match s with
  | EmptyString => true
  | String c _ => negb (is_name_char c)
  end.

(** Comparing [lit] with [p] character by character, without case, a
    difference shows before either runs out. *)
Fixpoint differs (lit p : string) : bool :=
  match lit, p with
  | String a lit', String b p' =>
      if Ascii.eqb (lower_char a) (lower_char b) then differs lit' p' else true
  | _, _ => false
  end.

(** No match of [lit] can begin inside [pre], whatever follows it. *)
Fixpoint clear_of (lit pre : string) : bool :=
  match pre with
  | EmptyString => true
  | String _ pre' => differs lit pre && clear_of lit pre'
  end.

(** Every character of [s] is white space. *)
Fixpoint all_space (s : string) : bool :=
  match s with
  | EmptyString => true
  | String c s' => Regex.is_space c && all_space s'
  end.

(** [s] has no comma. *)
Fixpoint no_comma (s : string) : bool :=
  match s with
  | EmptyString => true
  | String c s' => negb (Ascii.eqb c ","%char) && no_comma s'
  end.

End TextShapes.

(** ** Bodies and nestings, for the statements on the fetcher and the
       traversal *)

Module Shapes.
Import Json Fetcher.

(** The bytes a stream delivers before it fails, if it fails. *)
Fixpoint body_bytes (events : list stream_event) : bytes :=
  match events with
  | [] => []
  | chunk data :: rest => data ++ body_bytes rest
  | stream_error :: _ => []
  end.

(** [v] inside [n] one-element lists. *)
Fixpoint nest (n : nat) (v : json) : json :=
  match n with
  | O => v
  | S k => PList [nest k v]
  end.

(** A namespace like the one of the downloader module, with [config]
    bound as well. *)
Definition with_config (c : Config) : namespace :=
  <["config" := GConfig c]> snapchat_downloader_globals.

End Shapes.

(** ** Shapes of items and of JSON values, for the statements on the
       extractor *)

Module ItemShapes.
Import Json Extractor.

(** A description as [_parse_json_item] leaves it: a str or a list of
    at most 100 elements. *)
Definition at_most_100 (d : json) : Prop :=
  match d with
  | PStr s => (String.length s <= 100)%nat
  | PList l => (length l <= 100)%nat
  | _ => False
  end.

(** The fields of an item of the structured-data strategy. *)
Definition ld_shape (it : MediaItem) : Prop :=
  source it = None /\
  (exists t, thumbnail it = Some t) /\
  (exists d, description it = Some d /\ at_most_100 d).

(** No value of the mapping is itself a mapping or a list. *)
Definition scalar_entries (kvs : list (string * json)) : bool :=
  forallb (fun kv => match snd kv with
                     | PDict _ | PList _ => false
                     | _ => true
                     end) kvs.

End ItemShapes.

(** ** Texts of ASCII characters *)

Module PyAscii.

(** [s.isascii()]: every character is below 128. On such a text the
    comparison of letters without case, the white-space class, the
    digit class and the name class of this development are those of
    Python. A str with other characters is outside them: under
    re.IGNORECASE Python also takes U+017F for s and U+212A for k,
    U+0663 and U+00B2 are digits for str.isdigit, and U+00A0 is white
    space for str.strip. *)
Definition isascii (s : string) : bool :=
  forallb (fun c => (nat_of_ascii c <? 128)%nat) (list_ascii_of_string s).

End PyAscii.

(** ** A page with sixteen video tags *)

Module ManyUrls.
Import PyStr Extractor.

Definition clip (n : string) : string :=
  "https://cdn.example/" +:+ n +:+ ".mp4".

Definition video_tag (n : string) : string :=
  "<video src=" +:+ Samples.q (clip n) +:+ ">".

Definition names : list string :=
  ["1"; "2"; "3"; "4"; "5"; "6"; "7"; "8"; "9"; "10"; "11"; "12"; "13";
   "14"; "15"; "16"].

Definition page_sixteen : string := String.concat "" (map video_tag names).

End ManyUrls.

(** * Properties *)

#[local] Set Warnings "-clear-no-such-hyp".

(** ** The rate limiter *)

Section RateLimiterFacts.
Import RateLimiter.

Lemma Qltb_lt (a b : Q) : Qltb a b = true <-> (a < b)%Q.
Proof.
  unfold Qltb. rewrite negb_true_iff, <- not_true_iff_false, Qle_bool_iff.
  split; [apply Qnot_le_lt | apply Qlt_not_le].
Qed.

Lemma Qltb_ge (a b : Q) : Qltb a b = false <-> (b <= a)%Q.
Proof.
  unfold Qltb. rewrite negb_false_iff, Qle_bool_iff. reflexivity.
Qed.

Lemma in_window_true (now t : Q) : in_window now t = true <-> (now - t < 60)%Q.
Proof. apply Qltb_lt. Qed.

Lemma in_window_false (now t : Q) : in_window now t = false <-> (60 <= now - t)%Q.
Proof. apply Qltb_ge. Qed.

Lemma valid_requests_all (now : Q) (l : list Q) :
  Forall (fun t => (now - t < 60)%Q) l -> valid_requests now l = l.
Proof.
  unfold valid_requests. induction 1 as [|t l Ht _ IH]; simpl; [reflexivity|].
  apply in_window_true in Ht. rewrite Ht, IH. reflexivity.
Qed.

Lemma valid_requests_none (now : Q) (l : list Q) :
  Forall (fun t => (60 <= now - t)%Q) l -> valid_requests now l = [].
Proof.
  unfold valid_requests. induction 1 as [|t l Ht _ IH]; simpl; [reflexivity|].
  apply in_window_false in Ht. rewrite Ht. exact IH.
Qed.

Lemma valid_requests_in_window (now : Q) (l : list Q) :
  Forall (fun t => (now - t < 60)%Q) (valid_requests now l).
Proof.
  unfold valid_requests. induction l as [|t l IH]; simpl; [constructor|].
  destruct (in_window now t) eqn:E; [|exact IH].
  constructor; [apply in_window_true, E | exact IH].
Qed.

(** [py_min] returns an element of its list that no element is below. *)
Lemma py_min_spec (t : Q) (ts : list Q) :
  In (py_min t ts) (t :: ts) /\
  Forall (fun x => (py_min t ts <= x)%Q) (t :: ts).
Proof.
  unfold py_min. revert t. induction ts as [|x ts IH]; intros t; simpl.
  - split; [left; reflexivity|]. constructor; [apply Qle_refl | constructor].
  - destruct (Qltb x t) eqn:E.
    + destruct (IH x) as [Hin Hall]. split.
      * simpl in Hin. destruct Hin as [<- | Hin]; [right; left; reflexivity|].
        right; right; exact Hin.
      * apply Qltb_lt in E. inversion Hall as [|? ? Hx Hts]; subst.
        constructor; [lra|]. constructor; assumption.
    + destruct (IH t) as [Hin Hall]. split.
      * simpl in Hin. destruct Hin as [<- | Hin]; [left; reflexivity|].
        right; right; exact Hin.
      * apply Qltb_ge in E. inversion Hall as [|? ? Ht Hts]; subst.
        constructor; [exact Ht|]. constructor; [lra | exact Hts].
Qed.

(** When nothing in the list is below its head, [py_min] is the head. *)
Lemma py_min_head (t : Q) (ts : list Q) :
  Forall (fun x => (t <= x)%Q) ts -> py_min t ts = t.
Proof.
  unfold py_min. induction 1 as [|x ts Hx _ IH]; simpl; [reflexivity|].
  apply Qltb_ge in Hx. rewrite Hx. exact IH.
Qed.

Lemma requests_of_insert (st : state) (user_id : Z) (l : list Q) :
  requests_of (<[user_id := l]> st) user_id = l.
Proof. unfold requests_of. rewrite lookup_insert_eq. reflexivity. Qed.

(** [is_allowed] in one equation: prune, then reject at the ceiling or
    record the instant. *)
Lemma is_allowed_eq (cfg : Config) (now : Q) (user_id : Z) (st : state) :
  let kept := valid_requests now (requests_of st user_id) in
  is_allowed cfg now user_id st =
  if Z.of_nat (length kept) >=? REQUESTS_PER_MINUTE cfg
  then (false, <[user_id := kept]> st)
  else (true, <[user_id := kept ++ [now]]> st).
Proof.
  unfold is_allowed, requests_of. destruct (st !! user_id) as [l|] eqn:E; simpl.
  - rewrite E. simpl. rewrite insert_insert_eq. reflexivity.
  - rewrite lookup_insert_eq. simpl. rewrite !insert_insert_eq. reflexivity.
Qed.

Lemma get_wait_time_eq (now : Q) (user_id : Z) (st : state) :
  get_wait_time now user_id st =
  match window now user_id st with
  | [] => 0%Q
  | t :: ts => py_max0 (60 - (now - py_min t ts))
  end.
Proof.
  unfold get_wait_time, window, requests_of.
  destruct (st !! user_id); reflexivity.
Qed.

(** C3 (as amended): [get_wait_time] never consults the per-minute
    ceiling. Its result is non-negative; it is 0 when the user has no
    instant inside the 60-second window (no history included), and
    otherwise it is 60 minus the age of the oldest instant of the window,
    which is positive, whatever the number of instants. *)
Theorem get_wait_time_oldest_in_window (now : Q) (user_id : Z) (st : state) :
  (0 <= get_wait_time now user_id st)%Q /\
  match window now user_id st with
  | [] => get_wait_time now user_id st = 0%Q
  | t :: ts =>
      let oldest := py_min t ts in
      In oldest (t :: ts) /\
      Forall (fun x => (oldest <= x)%Q) (t :: ts) /\
      get_wait_time now user_id st = (60 - (now - oldest))%Q /\
      (0 < get_wait_time now user_id st)%Q
  end.
Proof.
  rewrite get_wait_time_eq.
  pose proof (valid_requests_in_window now (requests_of st user_id)) as Hw.
  fold (window now user_id st) in Hw.
  destruct (window now user_id st) as [|t ts]; [split; [apply Qle_refl | reflexivity]|].
  destruct (py_min_spec t ts) as [Hin Hmin].
  assert (Hold : (now - py_min t ts < 60)%Q).
  { rewrite Forall_forall in Hw. apply Hw, list_elem_of_In, Hin. }
  assert (Hpos : Qltb 0 (60 - (now - py_min t ts)) = true) by (apply Qltb_lt; lra).
  unfold py_max0. rewrite Hpos. repeat split; try assumption; lra.
Qed.

(** C3 (as stated) fails: one request 10 seconds ago leaves the user
    far under the ceiling of 20, and the wait is 50 seconds, not 0. *)
Lemma get_wait_time_under_limit_not_zero :
  let st : state := {[ 7 := [100%Q] ]} in
  Z.of_nat (length (window 110 7 st)) < REQUESTS_PER_MINUTE config /\
  get_wait_time 110 7 st = 50%Q /\
  ~ (get_wait_time 110 7 st == 0)%Q.
Proof.
  vm_compute. repeat split; discriminate.
Qed.

Lemma is_allowed_after_inactivity_gen (cfg : Config) (now : Q) (user_id : Z)
    (st : state) :
  0 < REQUESTS_PER_MINUTE cfg ->
  Forall (fun t => (60 <= now - t)%Q) (requests_of st user_id) ->
  is_allowed cfg now user_id st = (true, <[user_id := [now]]> st).
Proof.
  intros Hlim Hold. rewrite is_allowed_eq. simpl.
  rewrite (valid_requests_none _ _ Hold). simpl length.
  rewrite Z.geb_leb. destruct (Z.leb_spec (REQUESTS_PER_MINUTE cfg) (Z.of_nat 0));
    [lia | reflexivity].
Qed.

(** C6: when every recorded instant of the user is at least 60 seconds
    old at the check, the request is accepted, however many instants
    were recorded; only the new instant is left in the user's window. *)
Theorem is_allowed_after_inactivity (cfg : Config) (now : Q) (user_id : Z)
    (st : state) :
  0 < REQUESTS_PER_MINUTE cfg ->
  Forall (fun t => (60 <= now - t)%Q) (requests_of st user_id) ->
  is_allowed cfg now user_id st = (true, <[user_id := [now]]> st).
Proof.
  apply is_allowed_after_inactivity_gen.
Qed.

(** A user rejected at the ceiling of 20, then silent for a minute. *)
Lemma is_allowed_after_inactivity_witness :
  let st : state := {[ 7 := repeat 5%Q 20 ]} in
  is_allowed config 65 7 st = (true, <[7 := [65%Q]]> st).
Proof.
  apply (is_allowed_after_inactivity config 65 7).
  - reflexivity.
  - unfold requests_of. rewrite lookup_singleton_eq. simpl.
    repeat constructor; discriminate.
Defined.

(** Requests that all fall within 60 seconds after the instant [t1], made
    while the user's recorded instants are [done], none before [t1], are
    all accepted and recorded as long as the ceiling is not reached. *)
Lemma run_requests_accept (cfg : Config) (user_id : Z) (t1 : Q) (ts : list Q) :
  forall (done : list Q) (st : state),
  requests_of st user_id = done ->
  Forall (fun d => (t1 <= d)%Q) done ->
  Forall (fun t => (t1 <= t)%Q /\ (t - t1 < 60)%Q) ts ->
  Z.of_nat (length done + length ts) <= REQUESTS_PER_MINUTE cfg ->
  exists st', run_requests cfg user_id ts st = (repeat true (length ts), st') /\
              requests_of st' user_id = done ++ ts.
Proof.
  induction ts as [|t ts IH]; intros done st Hst Hdone Hts Hlen; simpl.
  - exists st. rewrite app_nil_r. split; [reflexivity | exact Hst].
  - inversion Hts as [|? ? [Hge Hlt] Hts']; subst.
    rewrite is_allowed_eq. simpl.
    rewrite valid_requests_all.
    2:{ eapply Forall_impl; [exact Hdone|]. simpl. intros d Hd. lra. }
    rewrite Z.geb_leb.
    destruct (Z.leb_spec (REQUESTS_PER_MINUTE cfg)
                (Z.of_nat (length (requests_of st user_id)))) as [Hfull|_].
    { simpl in Hlen. lia. }
    destruct (IH (requests_of st user_id ++ [t])
                 (<[user_id := requests_of st user_id ++ [t]]> st))
      as (st' & Hrun & Hreq).
    + apply requests_of_insert.
    + apply Forall_app. split; [exact Hdone | repeat constructor; exact Hge].
    + exact Hts'.
    + rewrite length_app. simpl in *. lia.
    + exists st'. rewrite Hrun. split; [reflexivity|].
      rewrite Hreq, <- app_assoc. reflexivity.
Qed.

(** C5: a user with no live history issues N requests, N at most the
    ceiling, all within 60 seconds after the first one: every call is
    accepted and its instant recorded. When N is the ceiling, a further
    request in the same window is rejected and records nothing, and
    the wait reported afterwards, still in that window, is positive and
    at most 60. *)
Theorem burst_accepted_then_rejected (cfg : Config) (user_id : Z) (st : state)
    (t1 : Q) (ts : list Q) (t' now : Q) :
  Forall (fun t0 => (60 <= t1 - t0)%Q) (requests_of st user_id) ->
  Forall (fun t => (t1 <= t)%Q /\ (t - t1 < 60)%Q) (ts ++ [t'; now]) ->
  Z.of_nat (length (t1 :: ts)) <= REQUESTS_PER_MINUTE cfg ->
  exists st1,
    run_requests cfg user_id (t1 :: ts) st
      = (repeat true (length (t1 :: ts)), st1) /\
    requests_of st1 user_id = t1 :: ts /\
    (Z.of_nat (length (t1 :: ts)) = REQUESTS_PER_MINUTE cfg ->
     exists st2,
       is_allowed cfg t' user_id st1 = (false, st2) /\
       requests_of st2 user_id = t1 :: ts /\
       (0 < get_wait_time now user_id st2)%Q /\
       (get_wait_time now user_id st2 <= 60)%Q).
Proof.
  intros Hold Hwin Hlen.
  apply Forall_app in Hwin as [Hts Hlast].
  inversion Hlast as [|? ? [Hge' Hlt'] Hlast']; subst.
  inversion Hlast' as [|? ? [Hgen Hltn] _]; subst.
  assert (Hlim : 0 < REQUESTS_PER_MINUTE cfg) by (simpl in Hlen; lia).
  simpl run_requests.
  rewrite (is_allowed_after_inactivity_gen cfg t1 user_id st Hlim Hold).
  destruct (run_requests_accept cfg user_id t1 ts [t1] (<[user_id := [t1]]> st))
    as (st1 & Hrun & Hreq).
  { apply requests_of_insert. }
  { repeat constructor. apply Qle_refl. }
  { exact Hts. }
  { simpl in *. lia. }
  exists st1. rewrite Hrun. simpl in Hreq.
  split; [reflexivity|]. split; [exact Hreq|].
  intros Hfull.
  assert (Hall : Forall (fun d => (t1 <= d)%Q) (t1 :: ts)).
  { constructor; [apply Qle_refl|].
    eapply Forall_impl; [exact Hts|]. simpl. tauto. }
  exists (<[user_id := t1 :: ts]> st1).
  rewrite is_allowed_eq. simpl. rewrite Hreq.
  rewrite valid_requests_all.
  2:{ eapply Forall_impl; [exact Hall|]. simpl. intros d Hd. lra. }
  rewrite Z.geb_leb.
  destruct (Z.leb_spec (REQUESTS_PER_MINUTE cfg) (Z.of_nat (length (t1 :: ts))))
    as [_|Hlt]; [|lia].
  split; [reflexivity|]. split; [apply requests_of_insert|].
  rewrite get_wait_time_eq. unfold window.
  rewrite requests_of_insert, valid_requests_all.
  2:{ eapply Forall_impl; [exact Hall|]. simpl. intros d Hd. lra. }
  rewrite py_min_head.
  2:{ inversion Hall; assumption. }
  assert (Hpos : Qltb 0 (60 - (now - t1)) = true) by (apply Qltb_lt; lra).
  unfold py_max0. rewrite Hpos. split; lra.
Qed.

(** Twenty requests one second apart, a twenty-first at second 30 and
    the wait asked at second 31. *)
Lemma burst_accepted_then_rejected_witness :
  let ts := map (fun n => inject_Z (Z.of_nat n)) (seq 1 19) in
  exists st1,
    run_requests config 7 (0%Q :: ts) ∅ = (repeat true 20, st1) /\
    requests_of st1 7 = 0%Q :: ts /\
    (Z.of_nat (length (0%Q :: ts)) = REQUESTS_PER_MINUTE config ->
     exists st2,
       is_allowed config 30 7 st1 = (false, st2) /\
       requests_of st2 7 = 0%Q :: ts /\
       (0 < get_wait_time 31 7 st2)%Q /\
       (get_wait_time 31 7 st2 <= 60)%Q).
Proof.
  apply (burst_accepted_then_rejected config 7 ∅ 0
           (map (fun n => inject_Z (Z.of_nat n)) (seq 1 19)) 30 31).
  - constructor.
  - simpl. repeat (constructor; [split; [discriminate | reflexivity]|]).
    constructor.
  - simpl. lia.
Defined.

End RateLimiterFacts.

(** ** The de-duplication loop *)

Section DedupFacts.
Import Json Extractor.

Lemma hashable_ukey (item : MediaItem) :
  hashable item -> hash_key (url item) = Ok (ukey item).
Proof. intros [k Hk]. unfold ukey. rewrite Hk. reflexivity. Qed.

Lemma hash_key_raise (v : json) (e : exn) :
  hash_key v = Raise e -> e = TypeError.
Proof. destruct v; simpl; congruence. Qed.

Lemma dedup_loop_hashable (items : list MediaItem) :
  forall seen unique,
  Forall hashable items ->
  dedup_loop items seen unique = Ok (unique ++ first_seen seen items).
Proof.
  induction items as [|item rest IH]; intros seen unique Hh; simpl.
  - rewrite app_nil_r. reflexivity.
  - inversion Hh as [|? ? Hitem Hrest]; subst.
    rewrite (hashable_ukey _ Hitem). simpl.
    destruct (decide (ukey item ∈ seen)); rewrite IH by assumption.
    + reflexivity.
    + rewrite <- app_assoc. reflexivity.
Qed.

Lemma dedup_loop_unhashable (items : list MediaItem) :
  forall seen unique,
  ~ Forall hashable items ->
  dedup_loop items seen unique = Raise TypeError.
Proof.
  induction items as [|item rest IH]; intros seen unique Hn; simpl.
  - exfalso. apply Hn. constructor.
  - destruct (hash_key (url item)) as [k|e] eqn:Hk; simpl.
    + assert (~ Forall hashable rest).
      { intros Hrest. apply Hn. constructor; [exists k; exact Hk | exact Hrest]. }
      destruct (decide (k ∈ seen)); apply IH; assumption.
    + apply hash_key_raise in Hk. subst. reflexivity.
Qed.

Lemma hashable_dec (item : MediaItem) : hashable item \/ ~ hashable item.
Proof.
  unfold hashable. destruct (hash_key (url item)) as [k|e].
  - left. exists k. reflexivity.
  - right. intros [k Hk]. discriminate Hk.
Qed.

Lemma all_hashable_dec (items : list MediaItem) :
  Forall hashable items \/ ~ Forall hashable items.
Proof.
  induction items as [|item rest IH].
  - left. constructor.
  - destruct (hashable_dec item) as [Hi|Hi].
    + destruct IH as [Hr|Hr].
      * left. constructor; assumption.
      * right. intros H. inversion H. contradiction.
    + right. intros H. inversion H. contradiction.
Qed.

(** The loop either finishes with the first-seen items or raises. *)
Lemma dedup_loop_cases (items : list MediaItem) :
  (Forall hashable items /\
   dedup_loop items ∅ [] = Ok (first_seen ∅ items)) \/
  dedup_loop items ∅ [] = Raise TypeError.
Proof.
  destruct (all_hashable_dec items) as [Hall|Hn].
  - left. split; [exact Hall|]. apply (dedup_loop_hashable items ∅ [] Hall).
  - right. apply dedup_loop_unhashable. exact Hn.
Qed.

Lemma first_seen_sublist (items : list MediaItem) :
  forall seen, first_seen seen items `sublist_of` items.
Proof.
  induction items as [|item rest IH]; intros seen; simpl.
  - constructor.
  - destruct (decide (ukey item ∈ seen)).
    + apply sublist_cons, IH.
    + apply sublist_skip, IH.
Qed.

Lemma first_seen_fresh (items : list MediaItem) :
  forall seen, Forall (fun item => ukey item ∉ seen) (first_seen seen items).
Proof.
  induction items as [|item rest IH]; intros seen; simpl; [constructor|].
  destruct (decide (ukey item ∈ seen)); [apply IH|].
  constructor; [assumption|].
  eapply Forall_impl; [apply IH|]. simpl. intros x Hx. set_solver.
Qed.

Lemma first_seen_NoDup (items : list MediaItem) :
  forall seen, NoDup (map ukey (first_seen seen items)).
Proof.
  induction items as [|item rest IH]; intros seen; simpl; [constructor|].
  destruct (decide (ukey item ∈ seen)); [apply IH|].
  simpl. constructor; [|apply IH].
  intros Hin. apply list_elem_of_In, in_map_iff in Hin as (x & Hx & Hin).
  pose proof (first_seen_fresh rest ({[ukey item]} ∪ seen)) as Hf.
  rewrite Forall_forall in Hf. apply list_elem_of_In in Hin.
  specialize (Hf x Hin). set_solver.
Qed.

Lemma first_seen_app (a b : list MediaItem) :
  forall seen,
  first_seen seen (a ++ b) =
  first_seen seen a ++ first_seen (list_to_set (map ukey a) ∪ seen) b.
Proof.
  induction a as [|item rest IH]; intros seen; simpl.
  - f_equal. set_solver.
  - destruct (decide (ukey item ∈ seen)) as [Hin|Hnin].
    + rewrite IH. f_equal. f_equal. set_solver.
    + simpl. rewrite IH. f_equal. f_equal. f_equal. set_solver.
Qed.

(** Every kept item is the first of the input with its key. *)
Lemma first_seen_first (items : list MediaItem) :
  forall seen item,
  item ∈ first_seen seen items ->
  exists pre post, items = pre ++ item :: post /\
                   ukey item ∉ map ukey pre.
Proof.
  induction items as [|x rest IH]; intros seen item Hin; simpl in Hin.
  - inversion Hin.
  - destruct (decide (ukey x ∈ seen)) as [Hseen|Hnew].
    + destruct (IH _ _ Hin) as (pre & post & -> & Hpre).
      exists (x :: pre), post. split; [reflexivity|].
      simpl. intros Hk. apply elem_of_cons in Hk as [Hk|Hk]; [|tauto].
      pose proof (first_seen_fresh (pre ++ item :: post) seen) as Hf.
      rewrite Forall_forall in Hf. specialize (Hf _ Hin). congruence.
    + apply elem_of_cons in Hin as [->|Hin].
      * exists [], rest. split; [reflexivity|]. simpl. apply not_elem_of_nil.
      * destruct (IH _ _ Hin) as (pre & post & -> & Hpre).
        exists (x :: pre), post. split; [reflexivity|].
        simpl. intros Hk. apply elem_of_cons in Hk as [Hk|Hk]; [|tauto].
        pose proof (first_seen_fresh (pre ++ item :: post) ({[ukey x]} ∪ seen)) as Hf.
        rewrite Forall_forall in Hf. specialize (Hf _ Hin). set_solver.
Qed.

(** No key of the input is lost. *)
Lemma first_seen_complete (items : list MediaItem) :
  forall seen item,
  item ∈ items ->
  ukey item ∈ seen \/ ukey item ∈ map ukey (first_seen seen items).
Proof.
  induction items as [|x rest IH]; intros seen item Hin.
  - inversion Hin.
  - simpl. apply elem_of_cons in Hin as [->|Hin].
    + destruct (decide (ukey x ∈ seen)); [left; assumption|].
      right. simpl. apply elem_of_cons. left. reflexivity.
    + destruct (decide (ukey x ∈ seen)); [apply IH; assumption|].
      destruct (IH ({[ukey x]} ∪ seen) item Hin) as [H|H].
      * apply elem_of_union in H as [H|H]; [|left; exact H].
        apply elem_of_singleton in H. right. simpl. apply elem_of_cons. left.
        exact H.
      * right. simpl. apply elem_of_cons. right. exact H.
Qed.

End DedupFacts.

(** ** What the three strategies emit *)

Section StrategyFacts.
Import PyStr Json Regex Extractor.

Ltac bind_inv H :=
  match type of H with
  | bind ?r _ = Ok _ =>
      let x := fresh "x" in
      let E := fresh "E" in
      destruct r as [x|] eqn:E; simpl in H; [|discriminate H]
  end.

Lemma parse_json_item_appends (item : json) (items items' : list MediaItem) :
  _parse_json_item item items = Ok items' ->
  items' = items \/
  exists it, items' = items ++ [it] /\ ld_url (url it).
Proof.
  unfold _parse_json_item. intros H.
  bind_inv H. bind_inv H.
  destruct (_ || _); [|left; congruence].
  bind_inv H. bind_inv H.
  destruct (truthy (py_or x1 x2)) eqn:Ht; [|left; congruence].
  bind_inv H. bind_inv H.
  destruct x4; [|left; congruence].
  bind_inv H. bind_inv H. bind_inv H.
  right. eexists. split; [symmetry; injection H as H; exact H|].
  simpl. split; [exact Ht|].
  destruct x3; [left; assumption | right; assumption].
Qed.

Section WithLibraries.
Variable ld_json_scripts : string -> result (list (option string)).
Variable json_loads : string -> result json.

Lemma parse_each_ld (data : list json) :
  forall items,
  Forall (fun it => ld_url (url it)) items ->
  Forall (fun it => ld_url (url it)) (parse_each data items).1.
Proof.
  induction data as [|item rest IH]; intros items Hitems; simpl; [assumption|].
  destruct (_parse_json_item item items) as [items'|e] eqn:E; [|assumption].
  apply IH. apply parse_json_item_appends in E as [->|(it & -> & Hit)].
  - assumption.
  - apply Forall_app. split; [assumption | constructor; [assumption | constructor]].
Qed.

Lemma script_step_ld (script : option string) (items : list MediaItem) :
  Forall (fun it => ld_url (url it)) items ->
  Forall (fun it => ld_url (url it)) (script_step json_loads script items).1.
Proof.
  intros Hitems. unfold script_step.
  destruct script as [text|]; [|assumption].
  destruct (json_loads text) as [[]|]; try assumption.
  - apply parse_each_ld. assumption.
  - destruct (_parse_json_item _ items) as [items'|e] eqn:E; [|assumption].
    simpl. apply parse_json_item_appends in E as [->|(it & -> & Hit)].
    + assumption.
    + apply Forall_app. split; [assumption | constructor; [assumption | constructor]].
Qed.

Lemma scripts_loop_ld (scripts : list (option string)) :
  forall items,
  Forall (fun it => ld_url (url it)) items ->
  Forall (fun it => ld_url (url it)) (scripts_loop json_loads scripts items).
Proof.
  induction scripts as [|script rest IH]; intros items Hitems; simpl; [assumption|].
  pose proof (script_step_ld script items Hitems) as Hstep.
  destruct (script_step json_loads script items) as [items' [e|]]; simpl in Hstep.
  - destruct e; try assumption. apply IH. assumption.
  - apply IH. assumption.
Qed.

Lemma extract_json_ld_urls (html : string) :
  Forall (fun it => ld_url (url it))
         (_extract_json_ld ld_json_scripts json_loads html).
Proof.
  unfold _extract_json_ld. destruct (ld_json_scripts html); [|constructor].
  apply scripts_loop_ld. constructor.
Qed.

End WithLibraries.

(** A hashable url that passed the guard is a str with a scheme inside. *)
Lemma ld_url_hashable (item : MediaItem) :
  ld_url (url item) -> hashable item -> url_is ld_str item.
Proof.
  intros [Ht Hin] [k Hk]. destruct (url item) as [| | | |s| |] eqn:Hu;
    simpl in *; try discriminate; try (destruct Hin; discriminate).
  exists s. split; [exact Hu|]. unfold ld_str.
  destruct Hin as [H|H]; injection H as H; auto.
Qed.

End StrategyFacts.

(** ** The embedded-state traversal *)

Section TraversalFacts.
Import PyStr Json Regex Extractor.

(** Induction on a JSON value, with the hypothesis for every element of
    a list and every value of a dict. *)
Lemma json_nested_ind (P : json -> Prop) :
  P PNone ->
  (forall b, P (PBool b)) ->
  (forall z, P (PInt z)) ->
  (forall q, P (PFloat q)) ->
  (forall s, P (PStr s)) ->
  (forall l, Forall P l -> P (PList l)) ->
  (forall kvs, Forall (fun kv => P (snd kv)) kvs -> P (PDict kvs)) ->
  forall v, P v.
Proof.
  intros Hnone Hbool Hint Hfloat Hstr Hlist Hdict.
  fix IH 1. intros [ | b | z | q | s | l | kvs ].
  - exact Hnone.
  - apply Hbool.
  - apply Hint.
  - apply Hfloat.
  - apply Hstr.
  - apply Hlist. induction l as [|x l IHl]; constructor; [apply IH | exact IHl].
  - apply Hdict. induction kvs as [|[k x] kvs IHk]; constructor;
      [apply IH | exact IHk].
Qed.

(** Every item of the traversal carries a str that starts with http. *)
Lemma traverse_urls (data : json) :
  forall depth max_depth,
  Forall (url_is js_str) (_traverse_json_for_media data depth max_depth).
Proof.
  induction data as [ | | | | | l IHl | kvs IHk ] using json_nested_ind;
    intros depth max_depth; simpl;
    destruct (max_depth <? depth)%nat; try constructor.
  - induction IHl as [|x l Hx _ IH]; [constructor|].
    apply Forall_app. split; [apply Hx | exact IH].
  - induction IHk as [|[key value] kvs Hv _ IH]; [constructor|].
    apply Forall_app. split; [|exact IH].
    destruct (is_media_key (lower key)).
    + destruct value as [ | | | |s| | ]; try constructor.
      destruct (startswith s "http") eqn:Es; repeat constructor.
      exists s. split; [reflexivity | exact Es].
    + simpl in Hv. destruct value; try constructor; apply Hv.
Qed.

End TraversalFacts.

(** ** The direct patterns *)

Section DirectFacts.
Import PyStr Json Regex Extractor.

Lemma scan_captures (fl : flags) (p : pattern) (s : list ascii) :
  forall skip m,
  In m (scan fl p skip s) ->
  exists s' cap n, In (cap, n) (matches_at fl p s') /\
                   m = string_of_list_ascii cap.
Proof.
  induction s as [|ch s IH]; intros skip m Hin; destruct skip as [|k];
    simpl in Hin.
  - destruct (matches_at fl p []) as [|[cap n] rest] eqn:E; [contradiction|].
    destruct Hin as [<-|[]]. exists [], cap, n. rewrite E. split; [left|]; reflexivity.
  - contradiction.
  - destruct (matches_at fl p (ch :: s)) as [|[cap n] rest] eqn:E.
    + apply (IH _ _ Hin).
    + destruct Hin as [<-|Hin]; [|apply (IH _ _ Hin)].
      exists (ch :: s), cap, n. rewrite E. split; [left|]; reflexivity.
  - apply (IH _ _ Hin).
Qed.

Lemma matches_at_group (fl : flags) (p : pattern) (s : list ascii)
    (cap : list ascii) (n : nat) :
  In (cap, n) (matches_at fl p s) ->
  exists s0 rest, In (cap, rest) (run fl (group p) s0).
Proof.
  unfold matches_at. intros Hin.
  apply in_flat_map in Hin as (sp0 & _ & Hin).
  apply in_flat_map in Hin as (sp1 & Hgroup & Hin).
  apply in_map_iff in Hin as (sp2 & Heq & _).
  injection Heq as <- _. exists (snd sp0), (snd sp1).
  destruct sp1; exact Hgroup.
Qed.

Lemma match_lit_ci (lit : list ascii) :
  forall s sp,
  In sp (match_lit IGNORECASE lit s) ->
  map lower_char (fst sp) = map lower_char lit.
Proof.
  induction lit as [|a lit IH]; intros s sp Hin; simpl in Hin.
  - destruct Hin as [<-|[]]. reflexivity.
  - destruct s as [|b s]; [contradiction|].
    destruct (same_char IGNORECASE a b) eqn:E; [|contradiction].
    apply in_map_iff in Hin as (sp' & <- & Hin). simpl.
    unfold same_char in E. simpl in E. apply Ascii.eqb_eq in E.
    rewrite (IH _ _ Hin), E. reflexivity.
Qed.

Lemma run_lit_head (l : string) (r : regex) (s : list ascii) (sp : split) :
  In sp (run IGNORECASE (Lit l :: r) s) ->
  exists c1 c2, fst sp = c1 ++ c2 /\
                map lower_char c1 = map lower_char (list_ascii_of_string l).
Proof.
  simpl. intros Hin.
  apply in_flat_map in Hin as (sp1 & Hlit & Hin).
  apply in_map_iff in Hin as (sp2 & <- & _).
  exists (fst sp1), (fst sp2). split; [reflexivity|].
  apply (match_lit_ci _ _ _ Hlit).
Qed.

Lemma lower_of_list (l : list ascii) :
  lower (string_of_list_ascii l) = string_of_list_ascii (map lower_char l).
Proof. induction l as [|c l IH]; simpl; [|rewrite IH]; reflexivity. Qed.

Lemma startswith_app (a b : list ascii) :
  startswith (string_of_list_ascii (a ++ b)) (string_of_list_ascii a) = true.
Proof.
  induction a as [|c a IH]; simpl.
  - destruct (string_of_list_ascii b); reflexivity.
  - rewrite Ascii.eqb_refl. exact IH.
Qed.

(** Whatever a direct pattern captures starts with https://, up to the
    case of its letters. *)
Lemma direct_capture (lead : regex) (ext html m : string) :
  In m (findall (direct_pattern lead ext) html IGNORECASE) ->
  direct_str m.
Proof.
  unfold findall. intros Hin.
  apply scan_captures in Hin as (s' & cap & n & Hin & ->).
  apply matches_at_group in Hin as (s0 & rest & Hin).
  apply run_lit_head in Hin as (c1 & c2 & Hcap & Hc1).
  simpl in Hcap. subst cap. unfold direct_str.
  rewrite lower_of_list, map_app, Hc1.
  apply (startswith_app (map lower_char (list_ascii_of_string "https://"))).
Qed.

Lemma direct_patterns_shape :
  Forall (fun p => exists lead ext, p = direct_pattern lead ext)
         (video_patterns ++ image_patterns).
Proof. repeat constructor; eexists; eexists; reflexivity. Qed.

Lemma extract_direct_urls_ok (html : string) :
  Forall (url_is direct_str) (_extract_direct_urls html).
Proof.
  pose proof direct_patterns_shape as Hshape.
  apply Forall_app in Hshape as [Hv Hi]. rewrite Forall_forall in Hv, Hi.
  unfold _extract_direct_urls. apply Forall_app. split;
    apply Forall_forall; intros it Hit; apply list_elem_of_In in Hit;
    apply in_flat_map in Hit as (p & Hp & Hit);
    apply in_map_iff in Hit as (m & <- & Hm);
    apply list_elem_of_In in Hp.
  - destruct (Hv p Hp) as (lead & ext & ->).
    exists m. split; [reflexivity | apply (direct_capture _ _ _ _ Hm)].
  - destruct (Hi p Hp) as (lead & ext & ->).
    exists m. split; [reflexivity | apply (direct_capture _ _ _ _ Hm)].
Qed.

End DirectFacts.

(** ** The extraction pipeline *)

Section PipelineFacts.
Import PyStr Json Regex Extractor.

Variable ld_json_scripts : string -> result (list (option string)).
Variable json_loads : string -> result json.


Lemma extract_js_data_urls (html : string) :
  Forall (url_is js_str) (_extract_js_data json_loads html).
Proof.
  unfold _extract_js_data. apply Forall_forall. intros it Hit.
  apply list_elem_of_In, in_flat_map in Hit as (p & _ & Hit).
  apply in_flat_map in Hit as (m & _ & Hit).
  destruct (json_loads m) as [data|]; [|contradiction].
  pose proof (traverse_urls data 0 10) as H. rewrite Forall_forall in H.
  apply H, list_elem_of_In, Hit.
Qed.

(** The pipeline returns nothing, or every discovered url is hashable
    and it returns the first 15 of the first-seen items. *)
Lemma extract_cases (html : string) :
  extract ld_json_scripts json_loads html = [] \/
  (Forall hashable (media_items ld_json_scripts json_loads html) /\
   dedup_loop (media_items ld_json_scripts json_loads html) ∅ [] = Ok (first_seen ∅ (media_items ld_json_scripts json_loads html)) /\
   extract ld_json_scripts json_loads html = firstn 15 (first_seen ∅ (media_items ld_json_scripts json_loads html))).
Proof.
  unfold extract, extract_body.
  destruct (dedup_loop_cases (media_items ld_json_scripts json_loads html)) as [[Hall Heq]|Hraise].
  - right. rewrite Heq. simpl. auto.
  - left. rewrite Hraise. reflexivity.
Qed.

Lemma extract_sublist (html : string) :
  extract ld_json_scripts json_loads html `sublist_of` media_items ld_json_scripts json_loads html.
Proof.
  destruct (extract_cases html) as [->|(_ & _ & ->)].
  - apply sublist_nil_l.
  - etrans; [apply sublist_take | apply first_seen_sublist].
Qed.

Lemma sublist_map {A B} (f : A -> B) (l1 l2 : list A) :
  l1 `sublist_of` l2 -> map f l1 `sublist_of` map f l2.
Proof. induction 1; simpl; constructor; assumption. Qed.

Lemma ukey_url (a b : MediaItem) : url a = url b -> ukey a = ukey b.
Proof. unfold ukey. intros ->. reflexivity. Qed.

Lemma fresh_url (item : MediaItem) (l : list MediaItem) :
  ukey item ∉ map ukey l -> url item ∉ map url l.
Proof.
  intros Hk Hu. apply Hk.
  apply list_elem_of_In, in_map_iff in Hu as (x & Hx & Hin).
  apply list_elem_of_In, in_map_iff. exists x. split; [|exact Hin].
  apply ukey_url. exact Hx.
Qed.

Lemma NoDup_ukey_url (l : list MediaItem) :
  NoDup (map ukey l) -> NoDup (map url l).
Proof.
  induction l as [|x l IH]; simpl; intros H; [constructor|].
  apply NoDup_cons in H as [Hx Hl].
  apply NoDup_cons. split; [apply fresh_url, Hx | apply IH, Hl].
Qed.

(** A discovered item with a hashable url comes from one of the three
    strategies and its url is a str with what that strategy checked. *)
Lemma media_item_origin (html : string) (it : MediaItem) :
  it ∈ media_items ld_json_scripts json_loads html ->
  hashable it ->
  exists s, url it = PStr s /\
    ((it ∈ _extract_json_ld ld_json_scripts json_loads html /\ ld_str s) \/
     (it ∈ _extract_js_data json_loads html /\ js_str s) \/
     (it ∈ _extract_direct_urls html /\ direct_str s)).
Proof.
  intros Hin Hh. unfold media_items in Hin.
  apply elem_of_app in Hin as [Hin|Hin]; [|apply elem_of_app in Hin as [Hin|Hin]].
  - pose proof (extract_json_ld_urls ld_json_scripts json_loads html) as H.
    rewrite Forall_forall in H.
    destruct (ld_url_hashable it (H it Hin) Hh) as (s & Hs & Hp).
    exists s. auto.
  - pose proof (extract_js_data_urls html) as H. rewrite Forall_forall in H.
    destruct (H it Hin) as (s & Hs & Hp). exists s. auto.
  - pose proof (extract_direct_urls_ok html) as H. rewrite Forall_forall in H.
    destruct (H it Hin) as (s & Hs & Hp). exists s. auto 6.
Qed.

(** Whatever is returned was discovered, with a hashable url. *)
Lemma extract_discovered (html : string) (it : MediaItem) :
  it ∈ extract ld_json_scripts json_loads html ->
  it ∈ media_items ld_json_scripts json_loads html /\ hashable it.
Proof.
  intros Hit.
  pose proof (elem_of_sublist _ _ _ Hit (extract_sublist html)) as Hin.
  split; [exact Hin|].
  destruct (extract_cases html) as [Hnil|(Hall & _ & _)].
  - rewrite Hnil in Hit. inversion Hit.
  - rewrite Forall_forall in Hall. apply Hall, Hin.
Qed.

(** Two discovered items with hashable urls and the same key have the
    same url. *)
Lemma ukey_inj_discovered (html : string) (a b : MediaItem) :
  a ∈ media_items ld_json_scripts json_loads html -> hashable a ->
  b ∈ media_items ld_json_scripts json_loads html -> hashable b ->
  ukey a = ukey b -> url a = url b.
Proof.
  intros Ha Hha Hb Hhb Hk.
  destruct (media_item_origin html a Ha Hha) as (sa & Hsa & _).
  destruct (media_item_origin html b Hb Hhb) as (sb & Hsb & _).
  unfold ukey in Hk. rewrite Hsa, Hsb in Hk. simpl in Hk.
  injection Hk as ->. congruence.
Qed.

(** The pipeline never returns more than 15 items. *)
Lemma extract_at_most_15 (html : string) : (length (extract ld_json_scripts json_loads html) <= 15)%nat.
Proof.
  destruct (extract_cases html) as [->|(_ & _ & ->)]; simpl; [lia|].
  rewrite length_take. lia.
Qed.

(** A url that cannot be hashed is not a str. *)
Lemma unhashable_not_str (it : MediaItem) :
  ~ hashable it -> forall s, url it <> PStr s.
Proof.
  intros Hn s Hs. apply Hn. exists (KStr s). rewrite Hs. reflexivity.
Qed.

Lemma unhashable_exists (items : list MediaItem) :
  ~ Forall hashable items -> Exists (fun it => ~ hashable it) items.
Proof.
  induction items as [|x l IH]; intros Hn.
  - exfalso. apply Hn. constructor.
  - destruct (hashable_dec x) as [Hx|Hx].
    + apply Exists_cons_tl, IH. intros Hl. apply Hn. constructor; assumption.
    + apply Exists_cons_hd. exact Hx.
Qed.



End PipelineFacts.

(** ** The media fetcher *)

Section FetcherFacts.
Import PyStr Json Fetcher.

Variable url_suffix : json -> result string.
Variable path_join : string -> string -> string.

(** Nothing binds the name [config] in the downloader module. *)
Lemma config_unbound : global_config snapchat_downloader_globals = Raise NameError.
Proof. reflexivity. Qed.

Lemma destination_unbound (r : response) (url : json) (filename : string) :
  exists e,
    destination url_suffix path_join snapchat_downloader_globals r url filename
    = Raise e.
Proof.
  unfold destination. destruct (extension url_suffix r url) as [ext|e]; simpl.
  - rewrite config_unbound. exists NameError. reflexivity.
  - exists e. reflexivity.
Qed.

Lemma download_media_unbound (url : json) (filename : string)
    (got : result response) (fs : files) :
  download_media url_suffix path_join snapchat_downloader_globals
                 url filename got fs = (None, fs).
Proof.
  unfold download_media. destruct got as [r|]; [|reflexivity].
  destruct (negb (status r =? 200)); [reflexivity|].
  destruct (destination_unbound r url filename) as [e ->]. reflexivity.
Qed.

(** Once the running total is over the ceiling the loop stops with the
    file removed and every other path as it was. *)
Lemma write_chunks_oversize (g : namespace) (c : Config) (filepath : string) :
  global_config g = Ok c ->
  forall events total fs,
  total <= MAX_FILE_SIZE c ->
  exceeds (MAX_FILE_SIZE c - total) events ->
  exists fs',
    write_chunks g filepath events total fs = (Ok oversize, fs') /\
    fs' !! filepath = None /\
    forall p, p <> filepath -> fs' !! p = fs !! p.
Proof.
  intros Hg. induction events as [|e rest IH]; intros total fs Hle (k & Hchunks & Hover).
  - rewrite firstn_nil in Hover. simpl in Hover. lia.
  - destruct k as [|k]; [simpl in Hover; lia|].
    simpl in Hchunks, Hover. inversion Hchunks as [|? ? He Hrest]; subst.
    destruct e as [data|]; [|destruct He].
    destruct data as [|b data].
    + simpl. apply IH; [exact Hle|]. exists k. split; [exact Hrest|].
      simpl in Hover. lia.
    + cbn [write_chunks]. rewrite Hg.
      set (n := Z.of_nat (length (b :: data))) in *.
      destruct (Z.gtb_spec (total + n) (MAX_FILE_SIZE c)) as [Hgt|Hle'].
      * eexists. split; [reflexivity|]. split; [apply lookup_delete_eq|].
        intros p Hp. rewrite lookup_delete_ne by congruence.
        unfold write. rewrite lookup_insert_ne by congruence. reflexivity.
      * destruct (IH (total + n) (write filepath (b :: data) fs) Hle')
          as (fs' & Hrun & Hgone & Hother).
        { exists k. split; [exact Hrest | lia]. }
        exists fs'. split; [exact Hrun|]. split; [exact Hgone|].
        intros p Hp. rewrite (Hother p Hp).
        unfold write. rewrite lookup_insert_ne by congruence. reflexivity.
Qed.

Lemma destination_bound (c : Config) (r : response) (url : json)
    (filename ext : string) :
  extension url_suffix r url = Ok ext ->
  destination url_suffix path_join
              (<["config" := GConfig c]> snapchat_downloader_globals)
              r url filename
  = Ok (path_join (TEMP_DIR c) (filename +:+ ext)).
Proof.
  intros Hext. unfold destination, global_config. rewrite Hext. simpl.
  rewrite lookup_insert_eq. reflexivity.
Qed.


End FetcherFacts.

Section FetcherWitness.
Import PyStr Json Fetcher.


End FetcherWitness.

(** ** The delivery loop *)

Section DeliveryFacts.
Import Json Extractor Orchestrator.

Variable world : Type.
Variable download_media : json -> string -> world -> result (option string) * world.
Variable make_filename : Z -> nat -> world -> string.
Variable path_exists : string -> world -> bool.
Variable reply_video : string -> string -> world -> result unit * world.
Variable reply_photo : string -> string -> world -> result unit * world.
Variable unlink : string -> world -> world.

Lemma deliver_loop_step (user_id : Z) (username : string) (idx : nat)
    (item : MediaItem) (rest : list MediaItem) (count : Z)
    (relayed : list MediaItem) (w : world) :
  let r := process_item world download_media make_filename path_exists
                        reply_video reply_photo unlink user_id username idx item w in
  deliver_loop world download_media make_filename path_exists reply_video
               reply_photo unlink user_id username idx (item :: rest) count relayed w
  = deliver_loop world download_media make_filename path_exists reply_video
                 reply_photo unlink user_id username (S idx) rest
                 (if fst r then count + 1 else count)
                 (if fst r then relayed ++ [item] else relayed) (snd r).
Proof.
  simpl.
  destruct (process_item world download_media make_filename path_exists
              reply_video reply_photo unlink user_id username idx item w)
    as [[|] w1]; reflexivity.
Qed.

(** C8: five found items, the per-item step succeeds on the 1st, 2nd,
    4th and 5th and fails on the 3rd, each from the world the previous
    step left: the four other items are relayed, in order, and the
    summary is found 5, succeeded 4, failed 1. *)
Theorem deliver_third_of_five_fails (user_id : Z) (username : string)
    (a b c d e : MediaItem) (w : world) :
  let step := process_item world download_media make_filename path_exists
                           reply_video reply_photo unlink user_id username in
  let r0 := step 0%nat a w in
  let r1 := step 1%nat b (snd r0) in
  let r2 := step 2%nat c (snd r1) in
  let r3 := step 3%nat d (snd r2) in
  let r4 := step 4%nat e (snd r3) in
  fst r0 = true -> fst r1 = true -> fst r2 = false ->
  fst r3 = true -> fst r4 = true ->
  deliver world download_media make_filename path_exists reply_video
          reply_photo unlink user_id username [a; b; c; d; e] w
  = ({| found := 5; succeeded := 4; failed := 1 |}, [a; b; d; e], snd r4).
Proof.
  intros step r0 r1 r2 r3 r4. subst step r0 r1 r2 r3 r4.
  intros H0 H1 H2 H3 H4.
  unfold deliver. simpl firstn.
  rewrite deliver_loop_step, H0. cbv zeta.
  rewrite deliver_loop_step, H1. cbv zeta.
  rewrite deliver_loop_step, H2. cbv zeta.
  rewrite deliver_loop_step, H3. cbv zeta.
  rewrite deliver_loop_step, H4. cbv zeta.
  reflexivity.
Qed.

End DeliveryFacts.

Section DeliveryWitness.
Import Json Extractor Orchestrator.

(** Collaborators that fail on one url only; the world counts the
    replies sent. *)
Lemma deliver_third_of_five_fails_witness :
  let download := fun (u : json) (_ : string) (w : nat) =>
    (if eq_str "https://cdn.example/3.mp4" u
     then Ok None else Ok (Some "/tmp/snap_downloads/f.mp4"), w) in
  let name := fun (_ : Z) (_ : nat) (_ : nat) => "f" in
  let present := fun (_ : string) (_ : nat) => true in
  let reply := fun (_ _ : string) (w : nat) => (Ok tt, S w) in
  let remove := fun (_ : string) (w : nat) => w in
  let item := fun s => direct_item video s in
  deliver nat download name present reply reply remove 7 "alice"
          [item "https://cdn.example/1.mp4"; item "https://cdn.example/2.mp4";
           item "https://cdn.example/3.mp4"; item "https://cdn.example/4.mp4";
           item "https://cdn.example/5.mp4"] 0%nat
  = ({| found := 5; succeeded := 4; failed := 1 |},
     [item "https://cdn.example/1.mp4"; item "https://cdn.example/2.mp4";
      item "https://cdn.example/4.mp4"; item "https://cdn.example/5.mp4"],
     4%nat).
Proof.
  intros download name present reply remove item.
  apply (deliver_third_of_five_fails nat download name present reply reply
           remove 7 "alice"); reflexivity.
Defined.

End DeliveryWitness.

Section BrokenFetcher.
Import Json Extractor Fetcher Orchestrator.

Variable url_suffix : json -> result string.
Variable path_join : string -> string -> string.
Variable session_get : json -> result response.
Variable make_filename : Z -> nat -> files -> string.
Variable path_exists : string -> files -> bool.
Variable reply_video : string -> string -> files -> result unit * files.
Variable reply_photo : string -> string -> files -> result unit * files.
Variable unlink : string -> files -> files.

Lemma deliver_loop_unbound (user_id : Z) (username : string)
    (items : list MediaItem) :
  forall idx count relayed fs,
  deliver_loop files (bot_download url_suffix path_join session_get)
               make_filename path_exists reply_video reply_photo unlink
               user_id username idx items count relayed fs
  = (count, relayed, fs).
Proof.
  induction items as [|item rest IH]; intros idx count relayed fs; simpl;
    [reflexivity|].
  unfold process_item, bot_download. rewrite download_media_unbound. apply IH.
Qed.

(** C2: in the namespace of the downloader module the name [config] is
    unbound, so whatever the url, the file name and the answer of the
    network, [download_media] returns no path and leaves the disk as it
    was; a delivery through it relays nothing and counts every found
    item as failed. *)
Theorem download_media_never_returns_a_path :
  (forall url filename got fs,
     download_media url_suffix path_join snapchat_downloader_globals
                    url filename got fs = (None, fs)) /\
  (forall user_id username media_items fs,
     deliver files (bot_download url_suffix path_join session_get)
             make_filename path_exists reply_video reply_photo unlink
             user_id username media_items fs
     = ({| found := Z.of_nat (length media_items);
           succeeded := 0;
           failed := Z.of_nat (length media_items) - 0 |}, [], fs)).
Proof.
  split.
  - intros. apply download_media_unbound.
  - intros. unfold deliver. rewrite deliver_loop_unbound. reflexivity.
Qed.

End BrokenFetcher.

(** ** The claims on the extractor, on the sample pages and in general *)

Section ExtractorClaims.
Import PyStr Json Regex Extractor.




(** C4, at the failing inputs. A video object whose contentUrl is a
    number makes the structured-data strategy stop: the well-formed
    block after it, which alone yields an item, is never parsed. A
    contentUrl that is a list makes the de-duplication raise: the match
    of the direct-pattern strategy is lost with everything else. *)
Theorem malformed_block_aborts_the_rest :
  length (extract Samples.ld_json_scripts Samples.json_loads
                  Samples.page_good_alone) = 1%nat /\
  extract Samples.ld_json_scripts Samples.json_loads
          Samples.page_bad_then_good = [] /\
  _extract_direct_urls Samples.page_list_url
  = [direct_item video "https://cdn.example/clip.mp4"] /\
  extract Samples.ld_json_scripts Samples.json_loads Samples.page_list_url = [].
Proof. vm_compute. repeat split. Qed.

(** The traversal stops below the bound, whatever the value. *)
Lemma traverse_beyond_bound (data : json) (depth max_depth : nat) :
  (max_depth < depth)%nat ->
  _traverse_json_for_media data depth max_depth = [].
Proof.
  intros H. apply Nat.ltb_lt in H.
  destruct data; simpl; rewrite H; reflexivity.
Qed.

(** An entry of the root mapping under a media-like key, with a str
    value that starts with http, yields its item, typed by the key. *)
Lemma traverse_root_entry (kvs : list (string * json)) (key s : string) :
  (key, PStr s) ∈ kvs ->
  is_media_key (lower key) = true ->
  startswith s "http" = true ->
  json_item (lower key) s ∈ _traverse_json_for_media (PDict kvs) 0 10.
Proof.
  intros Hin Hkey Hs. simpl.
  induction kvs as [|[k v] rest IH]; [inversion Hin|].
  apply elem_of_cons in Hin as [Heq|Hin].
  - injection Heq as <- <-. rewrite Hkey, Hs.
    apply elem_of_app. left. apply elem_of_cons. left. reflexivity.
  - apply elem_of_app. right. apply IH, Hin.
Qed.

(** What [fetch_public_content] returns is nothing or the result of the
    pipeline on the body of the page. *)
Lemma fetch_public_content_cases
    (ld_json_scripts : string -> result (list (option string)))
    (json_loads : string -> result json) (page : result (Z * result string)) :
  fetch_public_content ld_json_scripts json_loads page = [] \/
  exists html,
    fetch_public_content ld_json_scripts json_loads page
    = extract ld_json_scripts json_loads html.
Proof.
  destruct page as [[status [html|]]|]; simpl; auto.
  destruct (status =? 200); eauto.
Qed.

(** C9, at the failing input. An entry keyed url with an https value,
    one level below the root, yields its item when the mapping that holds
    it sits under the key story, and yields nothing when that mapping
    sits under the key media: a container under a media-like key is not
    descended into. *)
Theorem traverse_skips_container_under_media_key :
  let entry := PDict [("url", PStr "https://cdn.example/a.mp4")] in
  _traverse_json_for_media (PDict [("story", entry)]) 0 10
  = [json_item "url" "https://cdn.example/a.mp4"] /\
  _traverse_json_for_media (PList [entry]) 0 10
  = [json_item "url" "https://cdn.example/a.mp4"] /\
  _traverse_json_for_media (PDict [("media", entry)]) 0 10 = [].
Proof. vm_compute. repeat split. Qed.

End ExtractorClaims.

(** ** More on the rate limiter *)

Section LimiterInvariants.
Import RateLimiter LimiterRuns.

Lemma requests_of_insert_ne (st : state) (user_id other : Z) (l : list Q) :
  other <> user_id ->
  requests_of (<[user_id := l]> st) other = requests_of st other.
Proof.
  intros Hne. unfold requests_of. rewrite lookup_insert_ne by congruence.
  reflexivity.
Qed.

Lemma valid_requests_incl (now : Q) (l : list Q) (t : Q) :
  In t (valid_requests now l) -> In t l.
Proof. unfold valid_requests. intros H. apply filter_In in H. tauto. Qed.

Lemma valid_requests_length (now : Q) (l : list Q) :
  (length (valid_requests now l) <= length l)%nat.
Proof.
  unfold valid_requests. induction l as [|t l IH]; simpl; [lia|].
  destruct (in_window now t); simpl; lia.
Qed.

(** X1: a check for one user leaves the recorded instants of every
    other user as they were. *)
Theorem is_allowed_other_users (cfg : Config) (now : Q) (user_id other : Z)
    (st : state) :
  other <> user_id ->
  snd (is_allowed cfg now user_id st) !! other = st !! other.
Proof.
  intros Hne. rewrite is_allowed_eq. simpl.
  destruct (_ >=? _); simpl; rewrite lookup_insert_ne by congruence; reflexivity.
Qed.

Lemma is_allowed_other_users_witness :
  let st : state := {[ 7 := [100%Q]; 8 := [3%Q] ]} in
  snd (is_allowed config 110 7 st) !! 8 = st !! 8.
Proof.
  apply (is_allowed_other_users config 110 7 8). discriminate.
Defined.

(** X2: after a check at some instant, accepted or not, every instant
    still recorded for that user is less than 60 seconds old. *)
Theorem is_allowed_prunes (cfg : Config) (now : Q) (user_id : Z) (st : state) :
  Forall (fun t => (now - t < 60)%Q)
         (requests_of (snd (is_allowed cfg now user_id st)) user_id).
Proof.
  rewrite is_allowed_eq. simpl.
  destruct (_ >=? _); simpl; rewrite requests_of_insert.
  - apply valid_requests_in_window.
  - apply Forall_app. split; [apply valid_requests_in_window|].
    constructor; [lra | constructor].
Qed.

Lemma is_allowed_keeps_bound (cfg : Config) (now : Q) (user_id : Z) (st : state) :
  0 <= REQUESTS_PER_MINUTE cfg ->
  (forall u, Z.of_nat (length (requests_of st u)) <= REQUESTS_PER_MINUTE cfg) ->
  forall u,
    Z.of_nat (length (requests_of (snd (is_allowed cfg now user_id st)) u))
    <= REQUESTS_PER_MINUTE cfg.
Proof.
  intros Hpos Hbound u. rewrite is_allowed_eq. simpl.
  pose proof (valid_requests_length now (requests_of st user_id)) as Hlen.
  specialize (Hbound user_id) as Hu.
  destruct (decide (u = user_id)) as [->|Hne].
  - rewrite Z.geb_leb.
    destruct (Z.leb_spec (REQUESTS_PER_MINUTE cfg)
                (Z.of_nat (length (valid_requests now (requests_of st user_id)))));
      simpl; rewrite requests_of_insert.
    + lia.
    + rewrite length_app. simpl. lia.
  - destruct (_ >=? _); simpl; rewrite requests_of_insert_ne by assumption;
      apply Hbound.
Qed.

(** X3: whatever requests arrive, of whatever users and at whatever
    clock readings, the limiter never holds more instants for a user
    than the per-minute ceiling, if it did not to begin with. *)
Theorem run_events_bounded (cfg : Config) (events : list (Z * Q)) :
  forall st,
  0 <= REQUESTS_PER_MINUTE cfg ->
  (forall u, Z.of_nat (length (requests_of st u)) <= REQUESTS_PER_MINUTE cfg) ->
  forall u,
    Z.of_nat (length (requests_of (run_events cfg events st) u))
    <= REQUESTS_PER_MINUTE cfg.
Proof.
  induction events as [|[user_id now] rest IH]; intros st Hpos Hbound u; simpl.
  - apply Hbound.
  - apply IH; [exact Hpos|]. apply is_allowed_keeps_bound; assumption.
Qed.

Lemma run_events_bounded_witness :
  Z.of_nat (length (requests_of
    (run_events config [(7, 1%Q); (8, 2%Q); (7, 3%Q); (7, 70%Q)] ∅) 7))
  <= REQUESTS_PER_MINUTE config.
Proof.
  apply (run_events_bounded config [(7, 1%Q); (8, 2%Q); (7, 3%Q); (7, 70%Q)] ∅).
  - simpl. lia.
  - intros u. unfold requests_of. rewrite lookup_empty. simpl. lia.
Defined.

(** X4: under a positive ceiling, a user who is refused is told a
    positive wait at the same clock reading, and one of at most 60
    seconds when none of the recorded instants lies after that reading. *)
Theorem rejected_wait_positive (cfg : Config) (now : Q) (user_id : Z)
    (st : state) :
  0 < REQUESTS_PER_MINUTE cfg ->
  fst (is_allowed cfg now user_id st) = false ->
  let st' := snd (is_allowed cfg now user_id st) in
  (0 < get_wait_time now user_id st')%Q /\
  (Forall (fun t => (t <= now)%Q) (requests_of st user_id) ->
   (get_wait_time now user_id st' <= 60)%Q).
Proof.
  intros Hpos. rewrite is_allowed_eq. simpl.
  rewrite Z.geb_leb.
  destruct (Z.leb_spec (REQUESTS_PER_MINUTE cfg)
              (Z.of_nat (length (valid_requests now (requests_of st user_id)))))
    as [Hfull|_]; simpl; [intros _|discriminate].
  rewrite get_wait_time_eq. unfold window. rewrite requests_of_insert.
  rewrite (valid_requests_all now (valid_requests now (requests_of st user_id)))
    by apply valid_requests_in_window.
  pose proof (valid_requests_in_window now (requests_of st user_id)) as Hwin.
  destruct (valid_requests now (requests_of st user_id)) as [|t ts] eqn:Hkept;
    [simpl in Hfull; lia|].
  destruct (py_min_spec t ts) as [Hin _].
  assert (Hlive : (now - py_min t ts < 60)%Q).
  { rewrite Forall_forall in Hwin. apply Hwin, list_elem_of_In, Hin. }
  assert (Hmax : Qltb 0 (60 - (now - py_min t ts)) = true) by (apply Qltb_lt; lra).
  unfold py_max0. rewrite Hmax. split; [lra|].
  intros Hpast. rewrite Forall_forall in Hpast.
  assert (Hle : (py_min t ts <= now)%Q).
  { apply Hpast, list_elem_of_In, (valid_requests_incl now). rewrite Hkept.
    exact Hin. }
  lra.
Qed.

Lemma rejected_wait_positive_witness :
  let st : state := {[ 7 := repeat 100%Q 20 ]} in
  let st' := snd (is_allowed config 110 7 st) in
  (0 < get_wait_time 110 7 st')%Q /\
  (Forall (fun t => (t <= 110)%Q) (requests_of st 7) ->
   (get_wait_time 110 7 st' <= 60)%Q).
Proof.
  apply (rejected_wait_positive config 110 7 ({[ 7 := repeat 100%Q 20 ]})).
  - reflexivity.
  - vm_compute. reflexivity.
Defined.

End LimiterInvariants.

(** ** Appending strings *)

Lemma append_cons (c : ascii) (a b : string) :
  String c a +:+ b = String c (a +:+ b).
Proof. reflexivity. Qed.

Lemma append_nil (b : string) : EmptyString +:+ b = b.
Proof. reflexivity. Qed.

Ltac sapp := rewrite ?append_cons, ?append_nil in *.

(** ** The username parser *)

Section UsernameFacts.
Import PyStr Username TextShapes.

Lemma name_char_lower (c : ascii) :
  is_name_char (lower_char c) = is_name_char c.
Proof. destruct c as [[] [] [] [] [] [] [] []]; reflexivity. Qed.

Lemma lower_char_idem (c : ascii) : lower_char (lower_char c) = lower_char c.
Proof. destruct c as [[] [] [] [] [] [] [] []]; reflexivity. Qed.

(** A name character is neither a slash nor an at sign, whatever its
    case. *)
Lemma name_char_barrier (b : ascii) :
  is_name_char b = true ->
  Ascii.eqb "/"%char (lower_char b) = false /\
  Ascii.eqb "@"%char (lower_char b) = false.
Proof. destruct b as [[] [] [] [] [] [] [] []]; simpl; intros H; try discriminate H; split; reflexivity. Qed.

Lemma lower_idem (s : string) : lower (lower s) = lower s.
Proof. induction s as [|c s IH]; simpl; [|rewrite lower_char_idem, IH]; reflexivity. Qed.

Lemma lower_app (a b : string) : lower (a +:+ b) = lower a +:+ lower b.
Proof. induction a as [|c a IH]; sapp; simpl; [|rewrite IH]; reflexivity. Qed.

Lemma all_name_lower (s : string) : all_name (lower s) = all_name s.
Proof. induction s as [|c s IH]; simpl; [|rewrite name_char_lower, IH]; reflexivity. Qed.

Lemma run_split (s : string) : s = name_run s +:+ after_run s.
Proof.
  induction s as [|c s IH]; simpl; [reflexivity|].
  destruct (is_name_char c); sapp; [rewrite <- IH|]; reflexivity.
Qed.

Lemma name_run_all_name (s : string) : all_name (name_run s) = true.
Proof.
  induction s as [|c s IH]; simpl; [reflexivity|].
  destruct (is_name_char c) eqn:E; simpl; [rewrite E; exact IH | reflexivity].
Qed.

Lemma name_run_app (u rest : string) :
  all_name u = true -> stops_name rest = true ->
  name_run (u +:+ rest) = u /\ after_run (u +:+ rest) = rest.
Proof.
  intros Hu Hrest. induction u as [|c u IH]; sapp; simpl in *.
  - destruct rest as [|c rest]; simpl in *; [auto|].
    apply negb_true_iff in Hrest. rewrite Hrest. auto.
  - apply andb_true_iff in Hu as [Hc Hu]. rewrite Hc.
    destruct (IH Hu) as [-> ->]. auto.
Qed.

Lemma match_literal_same (lit : string) :
  forall L s, lower L = lower lit -> match_literal lit (L +:+ s) = Some s.
Proof.
  induction lit as [|a lit IH]; intros L s H; destruct L as [|b L];
    sapp; simpl in *; try discriminate H.
  - destruct s; reflexivity.
  - injection H as Hc HL. rewrite Hc, Ascii.eqb_refl. apply IH, HL.
Qed.

Lemma match_literal_differs (lit : string) :
  forall p s, differs lit p = true -> match_literal lit (p +:+ s) = None.
Proof.
  induction lit as [|a lit IH]; intros p s H; destruct p as [|b p];
    sapp; simpl in *; try discriminate H.
  destruct (Ascii.eqb (lower_char a) (lower_char b)); [apply IH, H | reflexivity].
Qed.

Lemma search_clear (lit : string) (pre s : string) :
  clear_of lit pre = true -> search lit (pre +:+ s) = search lit s.
Proof.
  induction pre as [|c pre IH]; [reflexivity|]. intros H.
  simpl in H. apply andb_true_iff in H as [Hd Hc].
  rewrite append_cons. simpl. unfold match_here.
  rewrite <- append_cons.
  rewrite (match_literal_differs lit (String c pre) s Hd). apply IH, Hc.
Qed.

Lemma search_at_head (lit L u rest : string) :
  lower L = lower lit -> u <> EmptyString ->
  all_name u = true -> stops_name rest = true ->
  search lit (L +:+ u +:+ rest) = Some u.
Proof.
  intros HL Hne Hu Hrest.
  assert (Hhere : match_here lit (L +:+ u +:+ rest) = Some u).
  { unfold match_here. rewrite (match_literal_same lit L _ HL).
    destruct (name_run_app u rest Hu Hrest) as [-> _].
    destruct u; [contradiction | reflexivity]. }
  destruct (L +:+ u +:+ rest); simpl; rewrite Hhere; reflexivity.
Qed.

(** A literal with a slash or an at sign in it matches nowhere in a text
    of name characters. *)
Lemma match_literal_barrier (l1 : string) (c : ascii) (l2 : string) :
  c = "/"%char \/ c = "@"%char ->
  forall s, all_name s = true ->
  match_literal (l1 +:+ String c l2) s = None.
Proof.
  intros Hc. induction l1 as [|a l1 IH]; intros s Hs; destruct s as [|b s];
    sapp; simpl in *; try reflexivity.
  - apply andb_true_iff in Hs as [Hb _].
    destruct (name_char_barrier b Hb) as [H1 H2].
    destruct Hc as [-> | ->];
      [change (lower_char "/"%char) with "/"%char; rewrite H1
      |change (lower_char "@"%char) with "@"%char; rewrite H2]; reflexivity.
  - apply andb_true_iff in Hs as [_ Hs].
    destruct (Ascii.eqb (lower_char a) (lower_char b)); [apply IH, Hs | reflexivity].
Qed.

Lemma search_barrier (l1 : string) (c : ascii) (l2 : string) :
  c = "/"%char \/ c = "@"%char ->
  forall s, all_name s = true ->
  search (l1 +:+ String c l2) s = None.
Proof.
  intros Hc. induction s as [|b s IH]; intros Hs; simpl; unfold match_here;
    rewrite (match_literal_barrier l1 c l2 Hc) by exact Hs; [reflexivity|].
  simpl in Hs. apply andb_true_iff in Hs as [_ Hs]. apply IH, Hs.
Qed.

Lemma first_match_name_text (s : string) :
  all_name s = true -> first_match patterns s = None.
Proof.
  intros Hs. unfold patterns, first_match.
  rewrite (search_barrier "snapchat.com" "/" "add/") by auto.
  rewrite (search_barrier "snapchat.com" "/" "s/") by auto.
  rewrite (search_barrier "snapchat.com" "/" "") by auto.
  rewrite (search_barrier "" "@" "") by auto.
  reflexivity.
Qed.

Lemma name_run_whole (u : string) :
  all_name u = true -> name_run u = u /\ after_run u = EmptyString.
Proof.
  induction u as [|c u IH]; simpl; [auto|]. intros H.
  apply andb_true_iff in H as [Hc Hu]. rewrite Hc.
  destruct (IH Hu) as [-> ->]. auto.
Qed.

Lemma search_some (lit : string) (s name : string) :
  search lit s = Some name -> name <> EmptyString /\ all_name name = true.
Proof.
  induction s as [|c s IH]; simpl; unfold match_here;
    destruct (match_literal lit _) as [rest|];
    try (destruct (name_run rest) eqn:E;
         [|intros [= <-]; split;
           [discriminate | rewrite <- E; apply name_run_all_name]]);
    try discriminate; try exact IH.
Qed.

Lemma first_match_some (lits : list string) (s name : string) :
  first_match lits s = Some name -> name <> EmptyString /\ all_name name = true.
Proof.
  induction lits as [|lit lits IH]; simpl; [discriminate|].
  destruct (search lit s) as [n|] eqn:E; [|exact IH].
  intros [= <-]. apply (search_some lit s n E).
Qed.

Lemma lower_nonempty (s : string) : s <> EmptyString -> lower s <> EmptyString.
Proof. destruct s; simpl; [contradiction | discriminate]. Qed.

(** X5: in a text of ASCII characters, a profile address, written in
    any case, after a prefix in which the pattern cannot begin, followed
    by a non-empty name and then by the end of the text or a character
    that cannot be part of a name: the username is the name, in lower
    case. *)
Theorem username_from_profile_url (pre L u rest : string) :
  PyAscii.isascii (pre +:+ L +:+ u +:+ rest) = true ->
  clear_of "snapchat.com/add/" pre = true ->
  lower L = "snapchat.com/add/" ->
  u <> EmptyString ->
  all_name u = true ->
  stops_name rest = true ->
  extract_username_from_url (pre +:+ L +:+ u +:+ rest) = Some (lower u).
Proof.
  intros _ Hpre HL Hne Hu Hrest. unfold extract_username_from_url, patterns.
  simpl first_match. rewrite (search_clear _ pre _ Hpre).
  rewrite (search_at_head "snapchat.com/add/" L u rest HL Hne Hu Hrest).
  reflexivity.
Qed.

Lemma username_from_profile_url_witness :
  extract_username_from_url
    ("https://www." +:+ "SnapChat.com/ADD/" +:+ "Alice_01" +:+ "?share=1")
  = Some "alice_01".
Proof.
  apply (username_from_profile_url "https://www." "SnapChat.com/ADD/"
           "Alice_01" "?share=1"); try reflexivity. discriminate.
Defined.

(** X6: an at sign followed by a non-empty name and nothing else gives
    the name in lower case. *)
Theorem username_from_handle (u : string) :
  u <> EmptyString ->
  all_name u = true ->
  extract_username_from_url ("@" +:+ u) = Some (lower u).
Proof.
  intros Hne Hu. unfold extract_username_from_url, patterns.
  rewrite append_cons, append_nil. simpl first_match.
  rewrite (search_barrier "snapchat.com" "/" "add/") by auto.
  rewrite (search_barrier "snapchat.com" "/" "s/") by auto.
  rewrite (search_barrier "snapchat.com" "/" "") by auto.
  unfold match_here. simpl match_literal.
  destruct (name_run_whole u Hu) as [-> _].
  destruct u; [contradiction | reflexivity].
Qed.

Lemma username_from_handle_witness :
  extract_username_from_url ("@" +:+ "Bob123") = Some "bob123".
Proof.
  apply (username_from_handle "Bob123"); [discriminate | reflexivity].
Defined.

(** X7: a text made of name characters only is a username exactly when
    it has 3 to 20 characters, and is returned in lower case. *)
Theorem username_from_plain_text (u : string) :
  all_name u = true ->
  extract_username_from_url u =
  if (3 <=? String.length u)%nat && (String.length u <=? 20)%nat
  then Some (lower u) else None.
Proof.
  intros Hu. unfold extract_username_from_url, plain_username.
  rewrite (first_match_name_text u Hu).
  destruct (name_run_whole u Hu) as [-> ->].
  change (String.eqb "" "" || String.eqb "" newline) with true.
  rewrite andb_true_r. reflexivity.
Qed.

Lemma username_from_plain_text_witness :
  extract_username_from_url "Some.User-9" = Some "some.user-9".
Proof. apply (username_from_plain_text "Some.User-9"). reflexivity. Defined.

(** X8: whatever the text of ASCII characters, a username that is
    returned is not empty, has no capital letter, and is made of name
    characters, with one exception: a plain text that ends in a newline
    keeps it. *)
Theorem username_shape (text r : string) :
  PyAscii.isascii text = true ->
  extract_username_from_url text = Some r ->
  r <> EmptyString /\
  lower r = r /\
  (all_name r = true \/
   exists r0, r = r0 +:+ newline /\ all_name r0 = true /\
              (3 <= String.length r0 <= 20)%nat).
Proof.
  intros _. unfold extract_username_from_url.
  destruct (first_match patterns text) as [name|] eqn:E.
  - intros [= <-]. destruct (first_match_some _ _ _ E) as [Hne Hall].
    split; [apply lower_nonempty, Hne|]. split; [apply lower_idem|].
    left. rewrite all_name_lower. exact Hall.
  - destruct (plain_username text) eqn:Hp; [|discriminate]. intros [= <-].
    unfold plain_username in Hp.
    apply andb_true_iff in Hp as [Hlen Hend].
    apply andb_true_iff in Hlen as [H3 H20].
    apply Nat.leb_le in H3, H20.
    pose proof (name_run_all_name text) as Hall.
    pose proof (run_split text) as Hsplit.
    split.
    { destruct text; [simpl in H3; lia | simpl; discriminate]. }
    split; [apply lower_idem|].
    apply orb_true_iff in Hend as [Hend|Hend]; apply String.eqb_eq in Hend;
      rewrite Hend in Hsplit.
    + left. rewrite all_name_lower, Hsplit.
      replace (name_run text +:+ "") with (name_run text)
        by (generalize (name_run text); intros x; induction x as [|c x IH];
            sapp; [|rewrite <- IH]; reflexivity).
      exact Hall.
    + right. exists (lower (name_run text)).
      rewrite Hsplit at 1. rewrite lower_app.
      split; [reflexivity|]. split; [rewrite all_name_lower; exact Hall|].
      assert (Hl : forall x, String.length (lower x) = String.length x)
        by (intros x; induction x as [|c x IH]; simpl; [|rewrite IH]; reflexivity).
      rewrite Hl. lia.
Qed.

Lemma username_shape_witness :
  let r := "abc" +:+ newline in
  r <> EmptyString /\
  lower r = r /\
  (all_name r = true \/
   exists r0, r = r0 +:+ newline /\ all_name r0 = true /\
              (3 <= String.length r0 <= 20)%nat).
Proof.
  apply (username_shape ("ABC" +:+ newline) ("abc" +:+ newline));
    reflexivity.
Defined.

End UsernameFacts.

(** ** The admin ids *)

Section AdminIdFacts.
Import PyStr AdminIds TextShapes.

Lemma int_from_nonneg (s : string) :
  forall acc, all_digits s = true -> 0 <= acc -> 0 <= int_from acc s.
Proof.
  induction s as [|c s IH]; intros acc Hd Hacc; simpl in *; [exact Hacc|].
  apply andb_true_iff in Hd as [Hc Hs]. apply IH; [exact Hs|].
  unfold is_digit in Hc. apply andb_true_iff in Hc as [Hlo _].
  apply Nat.leb_le in Hlo. lia.
Qed.

Lemma parsed_id_nonneg (ids_str : string) (id : Z) :
  In id (_parse_admin_ids ids_str) -> 0 <= id.
Proof.
  unfold _parse_admin_ids. destruct (String.eqb ids_str ""); [contradiction|].
  intros Hin. apply in_flat_map in Hin as (piece & _ & Hin).
  destruct (isdigit (strip piece)) eqn:Hd; [|contradiction].
  destruct Hin as [<-|[]]. unfold isdigit in Hd.
  apply andb_true_iff in Hd as [_ Hd]. apply int_from_nonneg; [exact Hd | lia].
Qed.

(** X9: every admin id that is parsed is a non-negative number: a
    piece with a sign, like the id of a group chat, is left out. *)
Theorem parse_admin_ids_nonneg (ids_str : string) :
  Forall (fun id => 0 <= id) (_parse_admin_ids ids_str).
Proof.
  unfold _parse_admin_ids. destruct (String.eqb ids_str ""); [constructor|].
  apply Forall_forall. intros id Hin.
  apply list_elem_of_In, in_flat_map in Hin as (piece & _ & Hin).
  destruct (isdigit (strip piece)) eqn:Hd; [|contradiction].
  destruct Hin as [<-|[]]. unfold isdigit in Hd.
  apply andb_true_iff in Hd as [_ Hd]. apply int_from_nonneg; [exact Hd | lia].
Qed.

Lemma split_comma_nonempty (s : string) : split_comma s <> [].
Proof.
  induction s as [|c s IH]; simpl; [discriminate|].
  destruct (Ascii.eqb c ","); [discriminate|].
  destruct (split_comma s); discriminate.
Qed.

(** The first piece of a text is what stands before its first comma. *)
Lemma split_comma_app (x rest : string) :
  no_comma x = true ->
  split_comma (x +:+ "," +:+ rest) = x :: split_comma rest.
Proof.
  induction x as [|c x IH]; intros Hx; sapp.
  - reflexivity.
  - simpl in Hx. apply andb_true_iff in Hx as [Hc Hx].
    apply negb_true_iff in Hc. simpl. rewrite Hc, (IH Hx). reflexivity.
Qed.

Lemma parse_pieces (s : string) :
  _parse_admin_ids s =
  flat_map (fun id => if isdigit (strip id) then [py_int (strip id)] else [])
           (match s with EmptyString => [] | _ => split_comma s end).
Proof. unfold _parse_admin_ids. destruct s; reflexivity. Qed.

Lemma parse_after_piece (x rest : string) :
  no_comma x = true ->
  _parse_admin_ids (x +:+ "," +:+ rest) =
  (if isdigit (strip x) then [py_int (strip x)] else []) ++ _parse_admin_ids rest.
Proof.
  intros Hx. rewrite (parse_pieces (x +:+ "," +:+ rest)).
  replace (match x +:+ "," +:+ rest with
           | EmptyString => []
           | _ => split_comma (x +:+ "," +:+ rest)
           end) with (split_comma (x +:+ "," +:+ rest))
    by (destruct x; sapp; reflexivity).
  rewrite (split_comma_app x rest Hx). simpl flat_map. f_equal.
  rewrite parse_pieces. destruct rest; [|reflexivity].
  simpl. reflexivity.
Qed.

Lemma digit_not_space (c : ascii) : is_digit c = true -> Regex.is_space c = false.
Proof. destruct c as [[] [] [] [] [] [] [] []]; simpl; intros H; try discriminate H; reflexivity. Qed.

Lemma digit_not_comma (c : ascii) : is_digit c = true -> Ascii.eqb c "," = false.
Proof. destruct c as [[] [] [] [] [] [] [] []]; simpl; intros H; try discriminate H; reflexivity. Qed.

Lemma space_not_comma (c : ascii) : Regex.is_space c = true -> Ascii.eqb c "," = false.
Proof. destruct c as [[] [] [] [] [] [] [] []]; simpl; intros H; try discriminate H; reflexivity. Qed.

Lemma no_comma_app (a b : string) :
  no_comma (a +:+ b) = no_comma a && no_comma b.
Proof. induction a as [|c a IH]; sapp; simpl; [|rewrite IH, andb_assoc]; reflexivity. Qed.

Lemma digits_no_comma (d : string) : all_digits d = true -> no_comma d = true.
Proof.
  induction d as [|c d IH]; simpl; [reflexivity|]. intros H.
  apply andb_true_iff in H as [Hc Hd]. rewrite (digit_not_comma c Hc), (IH Hd).
  reflexivity.
Qed.

Lemma spaces_no_comma (sp : string) : all_space sp = true -> no_comma sp = true.
Proof.
  induction sp as [|c sp IH]; simpl; [reflexivity|]. intros H.
  apply andb_true_iff in H as [Hc Hs]. rewrite (space_not_comma c Hc), (IH Hs).
  reflexivity.
Qed.

Lemma lstrip_spaces (sp s : string) :
  all_space sp = true -> lstrip (sp +:+ s) = lstrip s.
Proof.
  induction sp as [|c sp IH]; intros H; sapp; [reflexivity|].
  simpl in *. apply andb_true_iff in H as [Hc Hs]. rewrite Hc. apply IH, Hs.
Qed.

Lemma rstrip_spaces (sp : string) : all_space sp = true -> rstrip sp = EmptyString.
Proof.
  induction sp as [|c sp IH]; intros H; simpl in *; [reflexivity|].
  apply andb_true_iff in H as [Hc Hs]. rewrite (IH Hs), Hc. reflexivity.
Qed.

Lemma rstrip_digits (d sp : string) :
  all_digits d = true -> all_space sp = true -> rstrip (d +:+ sp) = d.
Proof.
  induction d as [|c d IH]; intros Hd Hsp; sapp.
  - apply rstrip_spaces, Hsp.
  - simpl in *. apply andb_true_iff in Hd as [Hc Hd]. rewrite (IH Hd Hsp).
    destruct d; [rewrite (digit_not_space c Hc)|]; reflexivity.
Qed.

Lemma strip_padded (sp1 d sp2 : string) :
  isdigit d = true -> all_space sp1 = true -> all_space sp2 = true ->
  strip (sp1 +:+ d +:+ sp2) = d.
Proof.
  unfold isdigit, strip. intros Hd H1 H2.
  apply andb_true_iff in Hd as [Hne Hd].
  rewrite (lstrip_spaces sp1 _ H1).
  destruct d as [|c d]; [discriminate Hne|]. sapp. simpl in Hd.
  apply andb_true_iff in Hd as [Hc Hd'].
  simpl lstrip. rewrite (digit_not_space c Hc).
  rewrite <- append_cons. apply rstrip_digits; [|exact H2].
  simpl. rewrite Hc, Hd'. reflexivity.
Qed.

(** X10: a numeral before the first comma, with any white space around
    it, gives its number, followed by the ids of the text after the
    comma. *)
Theorem parse_admin_ids_numeral (sp1 d sp2 rest : string) :
  isdigit d = true -> all_space sp1 = true -> all_space sp2 = true ->
  _parse_admin_ids ((sp1 +:+ d +:+ sp2) +:+ "," +:+ rest)
  = py_int d :: _parse_admin_ids rest.
Proof.
  intros Hd H1 H2.
  assert (Hx : no_comma (sp1 +:+ d +:+ sp2) = true).
  { rewrite !no_comma_app, (spaces_no_comma sp1 H1), (spaces_no_comma sp2 H2).
    unfold isdigit in Hd. apply andb_true_iff in Hd as [_ Hd].
    rewrite (digits_no_comma d Hd). reflexivity. }
  rewrite (parse_after_piece _ rest Hx), (strip_padded sp1 d sp2 Hd H1 H2), Hd.
  reflexivity.
Qed.

Lemma parse_admin_ids_numeral_witness :
  _parse_admin_ids ((" " +:+ "042" +:+ "  ") +:+ "," +:+ "7,x")
  = py_int "042" :: _parse_admin_ids "7,x".
Proof. apply (parse_admin_ids_numeral " " "042" "  " "7,x"); reflexivity. Defined.

(** X11: in a text of ASCII characters, a first piece that is not a
    numeral once stripped, be it empty, signed or a word, gives nothing:
    the ids are those of the text after the comma. *)
Theorem parse_admin_ids_skips (x rest : string) :
  PyAscii.isascii (x +:+ "," +:+ rest) = true ->
  no_comma x = true ->
  isdigit (strip x) = false ->
  _parse_admin_ids (x +:+ "," +:+ rest) = _parse_admin_ids rest.
Proof.
  intros _ Hx Hd. rewrite (parse_after_piece x rest Hx), Hd. reflexivity.
Qed.

Lemma parse_admin_ids_skips_witness :
  _parse_admin_ids ("-1001234" +:+ "," +:+ "7,8") = _parse_admin_ids "7,8".
Proof. apply (parse_admin_ids_skips "-1001234" "7,8"); reflexivity. Defined.

End AdminIdFacts.

(** ** The message handler *)

Section HandlerFacts.
Import Json Extractor Orchestrator RateLimiter Handler.

Variable world : Type.
Variable chat : chat_call -> world -> result unit * world.
Variable fetch_public_content : string -> world -> result (list MediaItem) * world.
Variable download_media : json -> string -> world -> result (option string) * world.
Variable make_filename : Z -> nat -> world -> string.
Variable path_exists : string -> world -> bool.
Variable reply_video : string -> string -> world -> result unit * world.
Variable reply_photo : string -> string -> world -> result unit * world.
Variable unlink : string -> world -> world.

(** X13: a message of a refused user, or one the limiter rejects, causes
    exactly one call on the chat, the reply that says so: no typing
    indicator, no page fetch, no download. *)
Theorem handle_message_gate (ADMIN_IDS : list Z) (cfg : Config)
    (now_check now_wait : Q) (user_id : Z) (text : string)
    (st : state) (w : world) :
  refused ADMIN_IDS user_id = true \/
  fst (is_allowed cfg now_check user_id st) = false ->
  snd (handle_message world chat fetch_public_content download_media
         make_filename path_exists reply_video reply_photo unlink
         ADMIN_IDS cfg now_check now_wait user_id text st w)
  = snd (chat (reply_text
                 (if refused ADMIN_IDS user_id then unauthorized_text
                  else rate_limit_text
                         (get_wait_time now_wait user_id
                            (snd (is_allowed cfg now_check user_id st))))) w).
Proof.
  intros Hgate. unfold handle_message.
  destruct (refused ADMIN_IDS user_id).
  - unfold then_. destruct (chat _ w) as [[|e] w1]; reflexivity.
  - destruct Hgate as [Hgate|Hgate]; [discriminate|].
    destruct (is_allowed cfg now_check user_id st) as [allowed st1].
    simpl in Hgate. subst allowed. simpl.
    unfold then_. destruct (chat _ w) as [[|e] w1]; reflexivity.
Qed.

End HandlerFacts.

Section HandlerWitness.
Import Json Extractor Orchestrator RateLimiter Handler.

(** A user who is not on the list of admins; the world counts the
    calls on the chat. *)
Lemma handle_message_gate_witness :
  let chat := fun (_ : chat_call) (w : nat) => (Ok tt, S w) in
  let fetch := fun (_ : string) (w : nat) => (Ok [], w) in
  let download := fun (_ : json) (_ : string) (w : nat) => (Ok None, w) in
  let name := fun (_ : Z) (_ : nat) (_ : nat) => "f" in
  let present := fun (_ : string) (_ : nat) => true in
  let reply := fun (_ _ : string) (w : nat) => (Ok tt, w) in
  let remove := fun (_ : string) (w : nat) => w in
  snd (handle_message nat chat fetch download name present reply reply remove
         [1; 2] config 10 10 7 "alice" ∅ 0%nat)
  = 1%nat.
Proof.
  intros chat fetch download name present reply remove.
  apply (handle_message_gate nat chat fetch download name present reply reply
           remove [1; 2] config 10 10 7 "alice" ∅ 0%nat).
  left. reflexivity.
Defined.

(** X14: when the list of admins comes from [_parse_admin_ids] and is
    not empty, a user with a negative id is refused. *)
Theorem negative_id_refused (ids_str : string) (user_id : Z) :
  AdminIds._parse_admin_ids ids_str <> [] ->
  user_id < 0 ->
  refused (AdminIds._parse_admin_ids ids_str) user_id = true.
Proof.
  intros Hne Hneg. unfold refused.
  pose proof (parsed_id_nonneg ids_str) as Hpos.
  destruct (AdminIds._parse_admin_ids ids_str) as [|id ids]; [contradiction|].
  apply negb_true_iff. apply not_true_iff_false. intros Hex.
  apply existsb_exists in Hex as (x & Hx & Heq).
  apply Z.eqb_eq in Heq. subst x. specialize (Hpos user_id Hx). lia.
Qed.

Lemma negative_id_refused_witness :
  refused (AdminIds._parse_admin_ids "12,-1001234") (-1001234) = true.
Proof.
  apply (negative_id_refused "12,-1001234" (-1001234)); [discriminate | lia].
Defined.

End HandlerWitness.

(** ** The delivery loop, in general *)

Section DeliveryInvariants.
Import Json Extractor Orchestrator.

Variable world : Type.
Variable download_media : json -> string -> world -> result (option string) * world.
Variable make_filename : Z -> nat -> world -> string.
Variable path_exists : string -> world -> bool.
Variable reply_video : string -> string -> world -> result unit * world.
Variable reply_photo : string -> string -> world -> result unit * world.
Variable unlink : string -> world -> world.

Lemma deliver_loop_kept (user_id : Z) (username : string)
    (items : list MediaItem) :
  forall idx count relayed w,
  exists kept w',
    deliver_loop world download_media make_filename path_exists reply_video
                 reply_photo unlink user_id username idx items count relayed w
    = (count + Z.of_nat (length kept), relayed ++ kept, w') /\
    kept `sublist_of` items.
Proof.
  induction items as [|item rest IH]; intros idx count relayed w.
  - exists [], w. simpl. rewrite Z.add_0_r, app_nil_r. split; [reflexivity|constructor].
  - rewrite deliver_loop_step. cbv zeta.
    destruct (process_item _ _ _ _ _ _ _ _ _ _ _ _) as [[|] w1]; simpl.
    + destruct (IH (S idx) (count + 1) (relayed ++ [item]) w1)
        as (kept & w' & -> & Hsub).
      exists (item :: kept), w'. split.
      * rewrite <- app_assoc. simpl. f_equal. f_equal. lia.
      * apply sublist_skip, Hsub.
    + destruct (IH (S idx) count relayed w1) as (kept & w' & -> & Hsub).
      exists kept, w'. split; [reflexivity | apply sublist_cons, Hsub].
Qed.

(** X15: whatever the collaborators do, the summary of a delivery
    counts every found item, the successes are the items relayed, which
    are taken in order from the first 10 found, and the failures are the
    rest: an item beyond the 10th is never tried and counts as failed. *)
Theorem deliver_summary (user_id : Z) (username : string)
    (media_items : list MediaItem) (w : world) :
  let '(s, relayed, _) :=
    deliver world download_media make_filename path_exists reply_video
            reply_photo unlink user_id username media_items w in
  found s = Z.of_nat (length media_items) /\
  succeeded s = Z.of_nat (length relayed) /\
  relayed `sublist_of` firstn 10 media_items /\
  succeeded s <= 10 /\
  failed s = found s - succeeded s /\
  Z.of_nat (length media_items) - 10 <= failed s.
Proof.
  unfold deliver.
  destruct (deliver_loop_kept user_id username (firstn 10 media_items) 0%nat 0 [] w)
    as (kept & w' & -> & Hsub).
  simpl. pose proof (sublist_length _ _ Hsub) as Hlen.
  rewrite length_take in Hlen.
  repeat split; try exact Hsub; lia.
Qed.

End DeliveryInvariants.

(** ** More on the media fetcher *)

Section FetcherStore.
Import PyStr Json Fetcher Shapes.

Variable url_suffix : json -> result string.
Variable path_join : string -> string -> string.

Lemma total_bytes_nonneg (events : list stream_event) : 0 <= total_bytes events.
Proof. induction events as [|[data|] rest IH]; simpl; lia. Qed.

Lemma write_chunks_frame (g : namespace) (filepath p : string) :
  p <> filepath ->
  forall events total fs,
  snd (write_chunks g filepath events total fs) !! p = fs !! p.
Proof.
  intros Hne. induction events as [|[[|b data]|] rest IH]; intros total fs;
    cbn [write_chunks]; try reflexivity.
  - apply IH.
  - destruct (global_config g) as [c|e]; simpl.
    + destruct (_ >? _); simpl.
      * rewrite lookup_delete_ne by congruence.
        unfold write. rewrite lookup_insert_ne by congruence. reflexivity.
      * rewrite IH. unfold write. rewrite lookup_insert_ne by congruence.
        reflexivity.
    + unfold write. rewrite lookup_insert_ne by congruence. reflexivity.
Qed.

(** X16: whatever the namespace, the answer of the network and the
    body, a fetch changes no file other than its destination. *)
Theorem download_media_frame (g : namespace) (url : json) (filename : string)
    (got : result response) (fs : files) (p : string) :
  (forall r filepath,
     got = Ok r ->
     destination url_suffix path_join g r url filename = Ok filepath ->
     p <> filepath) ->
  snd (download_media url_suffix path_join g url filename got fs) !! p = fs !! p.
Proof.
  intros Hp. unfold download_media. destruct got as [r|]; [|reflexivity].
  destruct (negb (status r =? 200)); [reflexivity|].
  destruct (destination url_suffix path_join g r url filename)
    as [filepath|] eqn:Hdest; [|reflexivity].
  specialize (Hp r filepath eq_refl Hdest).
  pose proof (write_chunks_frame g filepath p Hp (content r) 0
                (<[filepath := []]> fs)) as Hframe.
  rewrite lookup_insert_ne in Hframe by congruence.
  destruct (write_chunks g filepath (content r) 0 (<[filepath := []]> fs))
    as [[[]|] fs1]; simpl in *; try exact Hframe.
  destruct (fs1 !! filepath) as [[|]|]; exact Hframe.
Qed.

Lemma write_chunks_complete (g : namespace) (c : Config) (filepath : string) :
  global_config g = Ok c ->
  forall events total fs old,
  Forall is_chunk events ->
  total + total_bytes events <= MAX_FILE_SIZE c ->
  fs !! filepath = Some old ->
  write_chunks g filepath events total fs
  = (Ok finished, <[filepath := old ++ body_bytes events]> fs).
Proof.
  intros Hg. induction events as [|[[|b data]|] rest IH];
    intros total fs old Hall Hle Hold; cbn [write_chunks body_bytes].
  - rewrite app_nil_r, insert_id by exact Hold. reflexivity.
  - inversion Hall; subst. apply IH; assumption.
  - inversion Hall; subst. rewrite Hg.
    pose proof (total_bytes_nonneg rest) as Hrest.
    cbn [total_bytes] in Hle.
    destruct (Z.gtb_spec (total + Z.of_nat (length (b :: data))) (MAX_FILE_SIZE c))
      as [Hgt|_]; [lia|].
    rewrite (IH _ (write filepath (b :: data) fs) (old ++ b :: data)).
    + unfold write. rewrite Hold. simpl default.
      rewrite insert_insert_eq, <- app_assoc. reflexivity.
    + assumption.
    + lia.
    + unfold write. rewrite Hold. apply lookup_insert_eq.
  - inversion Hall as [|? ? Hbad]; subst. destruct Hbad.
Qed.

Lemma write_chunks_error (g : namespace) (c : Config) (filepath : string)
    (rest : list stream_event) :
  global_config g = Ok c ->
  forall chunks total fs old,
  Forall is_chunk chunks ->
  total + total_bytes chunks <= MAX_FILE_SIZE c ->
  fs !! filepath = Some old ->
  write_chunks g filepath (chunks ++ stream_error :: rest) total fs
  = (Raise OtherError, <[filepath := old ++ body_bytes chunks]> fs).
Proof.
  intros Hg. induction chunks as [|[[|b data]|] more IH];
    intros total fs old Hall Hle Hold; cbn [app write_chunks body_bytes].
  - rewrite app_nil_r, insert_id by exact Hold. reflexivity.
  - inversion Hall; subst. apply IH; assumption.
  - inversion Hall; subst. rewrite Hg.
    pose proof (total_bytes_nonneg more) as Hmore.
    cbn [total_bytes] in Hle.
    destruct (Z.gtb_spec (total + Z.of_nat (length (b :: data))) (MAX_FILE_SIZE c))
      as [Hgt|_]; [lia|].
    rewrite (IH _ (write filepath (b :: data) fs) (old ++ b :: data)).
    + unfold write. rewrite Hold. simpl default.
      rewrite insert_insert_eq, <- app_assoc. reflexivity.
    + assumption.
    + lia.
    + unfold write. rewrite Hold. apply lookup_insert_eq.
  - inversion Hall as [|? ? Hbad]; subst. destruct Hbad.
Qed.

(** X17: where [config] is bound, a body that arrives whole and within
    the maximum is on disk byte for byte afterwards, in place of whatever
    the destination held; the path is returned when the body is not
    empty, and an empty body returns no path and leaves an empty file. *)
Theorem download_media_stores_body (g : namespace) (c : Config) (url : json)
    (filename filepath : string) (r : response) (fs : files) :
  global_config g = Ok c ->
  status r = 200 ->
  destination url_suffix path_join g r url filename = Ok filepath ->
  Forall is_chunk (content r) ->
  total_bytes (content r) <= MAX_FILE_SIZE c ->
  download_media url_suffix path_join g url filename (Ok r) fs
  = (match body_bytes (content r) with
     | [] => None
     | _ :: _ => Some filepath
     end,
     <[filepath := body_bytes (content r)]> fs).
Proof.
  intros Hg Hstatus Hdest Hall Hle. unfold download_media.
  rewrite Hstatus, Hdest. simpl negb. cbv iota.
  rewrite (write_chunks_complete g c filepath Hg (content r) 0
             (<[filepath := []]> fs) []);
    [|assumption | lia | apply lookup_insert_eq].
  simpl app. rewrite insert_insert_eq, lookup_insert_eq.
  destruct (body_bytes (content r)); reflexivity.
Qed.

(** X18: where [config] is bound, a transport failure in the middle of
    a body that was within the maximum so far returns no path and
    leaves the bytes received so far on disk: the partial file is not
    removed. *)
Theorem download_media_partial_file (g : namespace) (c : Config) (url : json)
    (filename filepath : string) (r : response)
    (chunks rest : list stream_event) (fs : files) :
  global_config g = Ok c ->
  status r = 200 ->
  destination url_suffix path_join g r url filename = Ok filepath ->
  content r = chunks ++ stream_error :: rest ->
  Forall is_chunk chunks ->
  total_bytes chunks <= MAX_FILE_SIZE c ->
  download_media url_suffix path_join g url filename (Ok r) fs
  = (None, <[filepath := body_bytes chunks]> fs).
Proof.
  intros Hg Hstatus Hdest Hbody Hall Hle. unfold download_media.
  rewrite Hstatus, Hdest, Hbody. simpl negb. cbv iota.
  rewrite (write_chunks_error g c filepath rest Hg chunks 0
             (<[filepath := []]> fs) []);
    [|assumption | lia | apply lookup_insert_eq].
  simpl app. rewrite insert_insert_eq. reflexivity.
Qed.

End FetcherStore.

Section FetcherStoreWitness.
Import PyStr Json Fetcher Shapes.

Lemma download_media_frame_witness :
  let suffix := fun _ : json => Ok ".mp4" in
  let join := fun d n : string => d +:+ "/" +:+ n in
  let r := {| status := 200; content_type := "video/mp4";
              content := [chunk (list_ascii_of_string "abc")] |} in
  let fs : files := {[ "/tmp/snap_downloads/other.mp4" := list_ascii_of_string "x" ]} in
  snd (download_media suffix join (with_config config)
         (PStr "https://cdn.example/v.mp4") "7_0_0" (Ok r) fs)
    !! "/tmp/snap_downloads/other.mp4"
  = fs !! "/tmp/snap_downloads/other.mp4".
Proof.
  intros suffix join r fs.
  apply (download_media_frame suffix join (with_config config)
           (PStr "https://cdn.example/v.mp4") "7_0_0" (Ok r) fs).
  intros r' filepath [= <-] Hdest. vm_compute in Hdest.
  injection Hdest as <-. discriminate.
Defined.

Lemma download_media_stores_body_witness :
  let suffix := fun _ : json => Ok ".mp4" in
  let join := fun d n : string => d +:+ "/" +:+ n in
  let r := {| status := 200; content_type := "image/jpeg";
              content := [chunk (list_ascii_of_string "abc"); chunk [];
                          chunk (list_ascii_of_string "de")] |} in
  download_media suffix join (with_config config)
                 (PStr "https://cdn.example/a.jpg") "7_0_0" (Ok r) ∅
  = (Some "/tmp/snap_downloads/7_0_0.jpg",
     <["/tmp/snap_downloads/7_0_0.jpg" := list_ascii_of_string "abcde"]> ∅).
Proof.
  intros suffix join r.
  apply (download_media_stores_body suffix join (with_config config) config
           (PStr "https://cdn.example/a.jpg") "7_0_0"
           "/tmp/snap_downloads/7_0_0.jpg" r ∅).
  - reflexivity.
  - reflexivity.
  - reflexivity.
  - repeat constructor.
  - simpl. lia.
Defined.

Lemma download_media_partial_file_witness :
  let suffix := fun _ : json => Ok ".mp4" in
  let join := fun d n : string => d +:+ "/" +:+ n in
  let r := {| status := 200; content_type := "video/mp4";
              content := [chunk (list_ascii_of_string "abc"); stream_error;
                          chunk (list_ascii_of_string "de")] |} in
  download_media suffix join (with_config config)
                 (PStr "https://cdn.example/v.mp4") "7_0_0" (Ok r) ∅
  = (None, <["/tmp/snap_downloads/7_0_0.mp4" := list_ascii_of_string "abc"]> ∅).
Proof.
  intros suffix join r.
  apply (download_media_partial_file suffix join (with_config config) config
           (PStr "https://cdn.example/v.mp4") "7_0_0"
           "/tmp/snap_downloads/7_0_0.mp4" r
           [chunk (list_ascii_of_string "abc")]
           [chunk (list_ascii_of_string "de")] ∅).
  - reflexivity.
  - reflexivity.
  - reflexivity.
  - reflexivity.
  - repeat constructor.
  - simpl. lia.
Defined.

End FetcherStoreWitness.

(** ** More on the structured-data strategy *)

Section JsonLdFacts.
Import PyStr Json Extractor ItemShapes.

Variable json_loads : string -> result json.

(** X19: a script tag whose text is not JSON has no effect: the
    strategy gives what it gives on the page without that tag. *)
Theorem json_error_block_skipped (text : string)
    (before after : list (option string)) :
  json_loads text = Raise JSONDecodeError ->
  forall items,
  scripts_loop json_loads (before ++ Some text :: after) items
  = scripts_loop json_loads (before ++ after) items.
Proof.
  intros Hbad. induction before as [|script before IH]; intros items; simpl.
  - rewrite Hbad. reflexivity.
  - destruct (script_step json_loads script items) as [items' [e|]].
    + destruct e; try reflexivity. apply IH.
    + apply IH.
Qed.

Lemma take_length (n : nat) (s : string) :
  (String.length (PyStr.take n s) <= n)%nat.
Proof.
  revert s. induction n as [|n IH]; intros s; destruct s as [|c s]; simpl;
    try lia. specialize (IH s). lia.
Qed.

Lemma parse_json_item_shape (item : json) (items items' : list MediaItem) :
  _parse_json_item item items = Ok items' ->
  Forall ld_shape items -> Forall ld_shape items'.
Proof.
  unfold _parse_json_item. intros H Hitems.
  destruct (py_get item "@type" (PStr "")) as [t|]; simpl in H; [|discriminate].
  destruct (py_lower t) as [item_type|]; simpl in H; [|discriminate].
  destruct (_ || _); [|congruence].
  destruct (py_get item "contentUrl" PNone) as [cu|]; simpl in H; [|discriminate].
  destruct (py_get item "url" PNone) as [pu|]; simpl in H; [|discriminate].
  destruct (truthy (py_or cu pu)); [|congruence].
  destruct (py_in "http://" (py_or cu pu)) as [h1|]; simpl in H; [|discriminate].
  destruct (if h1 then Ok true else py_in "https://" (py_or cu pu)) as [h2|];
    simpl in H; [|discriminate].
  destruct h2; [|congruence].
  destruct (py_get item "thumbnailUrl" PNone) as [thumb|]; simpl in H; [|discriminate].
  destruct (py_get item "description" (PStr "")) as [d|]; simpl in H; [|discriminate].
  destruct (py_slice 100 d) as [descr|] eqn:Hslice; simpl in H; [|discriminate].
  injection H as <-. apply Forall_app. split; [exact Hitems|].
  constructor; [|constructor]. unfold ld_shape. simpl.
  split; [reflexivity|]. split; [eauto|]. exists descr. split; [reflexivity|].
  unfold py_slice in Hslice.
  destruct d as [ | | | |s|l| ]; try discriminate; injection Hslice as <-.
  - change (String.length (PyStr.take 100 s) <= 100)%nat. apply take_length.
  - change (length (firstn 100 l) <= 100)%nat. rewrite length_take. lia.
Qed.

Lemma parse_each_shape (data : list json) :
  forall items,
  Forall ld_shape items -> Forall ld_shape (parse_each data items).1.
Proof.
  induction data as [|item rest IH]; intros items Hitems; simpl; [assumption|].
  destruct (_parse_json_item item items) as [items'|e] eqn:E; [|assumption].
  apply IH, (parse_json_item_shape _ _ _ E Hitems).
Qed.

Lemma script_step_shape (script : option string) (items : list MediaItem) :
  Forall ld_shape items ->
  Forall ld_shape (script_step json_loads script items).1.
Proof.
  intros Hitems. unfold script_step.
  destruct script as [text|]; [|assumption].
  destruct (json_loads text) as [[]|]; try assumption.
  - apply parse_each_shape. assumption.
  - destruct (_parse_json_item _ items) as [items'|e] eqn:E; [|assumption].
    simpl. apply (parse_json_item_shape _ _ _ E Hitems).
Qed.

Lemma scripts_loop_shape (scripts : list (option string)) :
  forall items,
  Forall ld_shape items ->
  Forall ld_shape (scripts_loop json_loads scripts items).
Proof.
  induction scripts as [|script rest IH]; intros items Hitems; simpl; [assumption|].
  pose proof (script_step_shape script items Hitems) as Hstep.
  destruct (script_step json_loads script items) as [items' [e|]]; simpl in Hstep.
  - destruct e; try assumption. apply IH. assumption.
  - apply IH. assumption.
Qed.

(** X20: every item of the structured-data strategy has a thumbnail
    entry, a description entry that is a str or a list cut to at most
    100 elements, and no source entry. *)
Theorem extract_json_ld_shape
    (ld_json_scripts : string -> result (list (option string))) (html : string) :
  Forall ld_shape (_extract_json_ld ld_json_scripts json_loads html).
Proof.
  unfold _extract_json_ld. destruct (ld_json_scripts html); [|constructor].
  apply scripts_loop_shape. constructor.
Qed.

End JsonLdFacts.

Section JsonLdWitness.
Import PyStr Json Extractor.

Lemma json_error_block_skipped_witness :
  scripts_loop Samples.json_loads
    ([Some Samples.block_good] ++ Some "{not json" :: [Some Samples.block_good]) []
  = scripts_loop Samples.json_loads
      ([Some Samples.block_good] ++ [Some Samples.block_good]) [].
Proof.
  apply (json_error_block_skipped Samples.json_loads "{not json"
           [Some Samples.block_good] [Some Samples.block_good]).
  reflexivity.
Defined.

End JsonLdWitness.

(** ** More on the patterns, the de-duplication and the traversal *)

Section MatchSoundness.
Import PyStr Json Regex Extractor.

Lemma push_split (ch : ascii) (s : list ascii) (sp : split) :
  s = fst sp ++ snd sp -> ch :: s = fst (push ch sp) ++ snd (push ch sp).
Proof. intros ->. reflexivity. Qed.

Lemma match_lit_split (fl : flags) (lit : list ascii) :
  forall s sp, In sp (match_lit fl lit s) -> s = fst sp ++ snd sp.
Proof.
  induction lit as [|a lit IH]; intros s sp Hin; simpl in Hin.
  - destruct Hin as [<-|[]]. reflexivity.
  - destruct s as [|b s]; [contradiction|].
    destruct (same_char fl a b); [|contradiction].
    apply in_map_iff in Hin as (sp' & <- & Hin). apply push_split, (IH _ _ Hin).
Qed.

Lemma match_star_split (fl : flags) (c : cclass) :
  forall s sp, In sp (match_star fl c s) -> s = fst sp ++ snd sp.
Proof.
  induction s as [|ch s IH]; intros sp Hin; simpl in Hin.
  - destruct Hin as [<-|[]]. reflexivity.
  - destruct (in_class fl c ch).
    + apply in_app_iff in Hin as [Hin|[<-|[]]]; [|reflexivity].
      apply in_map_iff in Hin as (sp' & <- & Hin). apply push_split, (IH _ Hin).
    + destruct Hin as [<-|[]]. reflexivity.
Qed.

Lemma match_lazy_split (fl : flags) (c : cclass) :
  forall s sp, In sp (match_lazy fl c s) -> s = fst sp ++ snd sp.
Proof.
  induction s as [|ch s IH]; intros sp Hin; simpl in Hin.
  - destruct Hin as [<-|[]]. reflexivity.
  - destruct (in_class fl c ch).
    + destruct Hin as [<-|Hin]; [reflexivity|].
      apply in_map_iff in Hin as (sp' & <- & Hin). apply push_split, (IH _ Hin).
    + destruct Hin as [<-|[]]. reflexivity.
Qed.

Lemma match_atom_split (fl : flags) (a : atom) (s : list ascii) (sp : split) :
  In sp (match_atom fl a s) -> s = fst sp ++ snd sp.
Proof.
  destruct a as [l|c|c|c]; simpl.
  - apply match_lit_split.
  - apply match_star_split.
  - destruct s as [|ch s]; [contradiction|].
    destruct (in_class fl c ch); [|contradiction]. intros Hin.
    apply in_map_iff in Hin as (sp' & <- & Hin).
    apply push_split, (match_star_split _ _ _ _ Hin).
  - apply match_lazy_split.
Qed.

(** What a sequence consumes and what it leaves make up the input. *)
Lemma run_split_input (fl : flags) (r : regex) :
  forall s sp, In sp (run fl r s) -> s = fst sp ++ snd sp.
Proof.
  induction r as [|a r IH]; intros s sp Hin; simpl in Hin.
  - destruct Hin as [<-|[]]. reflexivity.
  - apply in_flat_map in Hin as (sp1 & H1 & Hin).
    apply in_map_iff in Hin as (sp2 & <- & H2). simpl.
    rewrite (match_atom_split _ _ _ _ H1), (IH _ _ H2), app_assoc. reflexivity.
Qed.

Lemma matches_at_inside (fl : flags) (p : pattern) (s cap : list ascii) (n : nat) :
  In (cap, n) (matches_at fl p s) -> exists a b, s = a ++ cap ++ b.
Proof.
  unfold matches_at. intros Hin.
  apply in_flat_map in Hin as (sp0 & H0 & Hin).
  apply in_flat_map in Hin as (sp1 & H1 & Hin).
  apply in_map_iff in Hin as (sp2 & Heq & _). injection Heq as <- _.
  exists (fst sp0), (snd sp1).
  rewrite (run_split_input _ _ _ _ H0), (run_split_input _ _ _ _ H1).
  reflexivity.
Qed.

Lemma scan_inside (fl : flags) (p : pattern) (s : list ascii) :
  forall skip m,
  In m (scan fl p skip s) ->
  exists a cap b, m = string_of_list_ascii cap /\ s = a ++ cap ++ b.
Proof.
  induction s as [|ch s IH]; intros skip m Hin.
  - destruct (scan_captures fl p [] skip m Hin) as (s' & cap & n & Hat & ->).
    destruct skip; simpl in Hin; [|contradiction].
    destruct (matches_at fl p []) as [|[cap' n'] rest] eqn:E; [contradiction|].
    destruct Hin as [Heq|[]].
    destruct (matches_at_inside fl p [] cap' n') as (a & b & Hs);
      [rewrite E; left; reflexivity|].
    exists a, cap', b. split; [symmetry; exact Heq | exact Hs].
  - assert (Hrec : forall k, In m (scan fl p k s) ->
              exists a cap b, m = string_of_list_ascii cap /\ ch :: s = a ++ cap ++ b).
    { intros k Hk. destruct (IH k m Hk) as (a & cap & b & -> & ->).
      exists (ch :: a), cap, b. split; reflexivity. }
    destruct skip as [|k]; simpl in Hin; [|apply (Hrec _ Hin)].
    destruct (matches_at fl p (ch :: s)) as [|[cap n] rest] eqn:E;
      [apply (Hrec _ Hin)|].
    destruct Hin as [<-|Hin]; [|apply (Hrec _ Hin)].
    destruct (matches_at_inside fl p (ch :: s) cap n) as (a & b & Hs);
      [rewrite E; left; reflexivity|].
    exists a, cap, b. split; [reflexivity | exact Hs].
Qed.

Lemma string_of_app (a b : list ascii) :
  string_of_list_ascii (a ++ b) = string_of_list_ascii a +:+ string_of_list_ascii b.
Proof. induction a as [|c a IH]; sapp; simpl; [|rewrite IH, append_cons]; reflexivity. Qed.

(** Whatever [findall] returns stands in the text it searched. *)
Lemma findall_inside (p : pattern) (html : string) (fl : flags) (m : string) :
  In m (findall p html fl) -> exists a b, html = a +:+ m +:+ b.
Proof.
  unfold findall. intros Hin.
  destruct (scan_inside _ _ _ _ _ Hin) as (a & cap & b & -> & Hs).
  exists (string_of_list_ascii a), (string_of_list_ascii b).
  rewrite <- !string_of_app, <- Hs, string_of_list_ascii_of_string. reflexivity.
Qed.

(** X21: the direct-pattern strategy invents nothing: the url of each of
    its items is a str that stands, character for character, in the
    page. *)
Theorem direct_urls_verbatim (html : string) :
  Forall (fun it => exists s a b, url it = PStr s /\ html = a +:+ s +:+ b)
         (_extract_direct_urls html).
Proof.
  unfold _extract_direct_urls. apply Forall_app. split;
    apply Forall_forall; intros it Hit; apply list_elem_of_In in Hit;
    apply in_flat_map in Hit as (p & _ & Hit);
    apply in_map_iff in Hit as (m & <- & Hm);
    destruct (findall_inside _ _ _ _ Hm) as (a & b & Hs);
    exists m, a, b; split; [reflexivity | exact Hs | reflexivity | exact Hs].
Qed.

(** X22: every fragment handed to [json.loads] by the embedded-state
    strategy stands in the page as it is, and begins with an opening
    brace. *)
Theorem js_fragments_verbatim (html m : string) (p : pattern) :
  In p js_patterns ->
  In m (findall p html DOTALL) ->
  (exists a b, html = a +:+ m +:+ b) /\ startswith m "{" = true.
Proof.
  intros Hp Hm. split; [apply (findall_inside _ _ _ _ Hm)|].
  unfold findall in Hm.
  apply scan_captures in Hm as (s' & cap & n & Hat & ->).
  apply matches_at_group in Hat as (s0 & rest & Hrun).
  assert (Hgroup : group p = braces).
  { simpl in Hp. destruct Hp as [<-|[<-|[<-|[<-|[]]]]]; reflexivity. }
  rewrite Hgroup in Hrun. unfold braces in Hrun. simpl in Hrun.
  destruct s0 as [|b s0]; [contradiction|].
  destruct (same_char DOTALL "{" b) eqn:Hb; [|contradiction].
  change (Ascii.eqb "{" b = true) in Hb. apply Ascii.eqb_eq in Hb. subst b.
  apply in_flat_map in Hrun as (sp1 & H1 & Hrun).
  destruct H1 as [<-|[]].
  apply in_map_iff in Hrun as (sp2 & Heq & _).
  injection Heq as <- _. simpl. destruct (string_of_list_ascii _); reflexivity.
Qed.

Lemma js_fragments_verbatim_witness :
  let html := "var __DATA__ = {" +:+ Samples.q "k" +:+ ":1};" in
  let m := "{" +:+ Samples.q "k" +:+ ":1}" in
  let p := {| before := [Lit "var"; Plus CSpace; Lit "__DATA__"; Star CSpace;
                         Lit "="; Star CSpace];
              group := braces; after := [Lit ";"] |} in
  (exists a b, html = a +:+ m +:+ b) /\ startswith m "{" = true.
Proof.
  intros html m p. apply (js_fragments_verbatim html m p).
  - right. right. left. reflexivity.
  - vm_compute. left. reflexivity.
Defined.

End MatchSoundness.

Section DedupAndDepth.
Import PyStr Json Regex Extractor Shapes ItemShapes.

Lemma first_seen_fixed (l : list MediaItem) :
  forall seen,
  NoDup (map ukey l) ->
  Forall (fun it => ukey it ∉ seen) l ->
  first_seen seen l = l.
Proof.
  induction l as [|x l IH]; intros seen Hnd Hfresh; simpl; [reflexivity|].
  simpl in Hnd. apply NoDup_cons in Hnd as [Hx Hnd].
  inversion Hfresh as [|? ? Hxs Hls]; subst.
  destruct (decide (ukey x ∈ seen)); [contradiction|].
  f_equal. apply IH; [exact Hnd|].
  apply Forall_forall. intros y Hy. rewrite Forall_forall in Hls.
  intros Hin. apply elem_of_union in Hin as [Hin|Hin]; [|apply (Hls y Hy Hin)].
  apply elem_of_singleton in Hin. apply Hx. rewrite <- Hin.
  apply list_elem_of_In, in_map, list_elem_of_In, Hy.
Qed.

(** X23: de-duplicating twice changes nothing: when the loop finishes
    on a list, it finishes on its own result and returns it as it is. *)
Theorem dedup_loop_idempotent (items unique_items : list MediaItem) :
  dedup_loop items ∅ [] = Ok unique_items ->
  dedup_loop unique_items ∅ [] = Ok unique_items.
Proof.
  intros Hloop.
  destruct (dedup_loop_cases items) as [[Hall Heq]|Hraise]; [|congruence].
  assert (unique_items = first_seen ∅ items) as -> by congruence.
  assert (Hh : Forall hashable (first_seen ∅ items)).
  { apply Forall_forall. intros x Hx. rewrite Forall_forall in Hall.
    apply Hall. eapply elem_of_sublist; [exact Hx | apply first_seen_sublist]. }
  rewrite (dedup_loop_hashable _ ∅ [] Hh). simpl. f_equal.
  apply first_seen_fixed; [apply first_seen_NoDup | apply first_seen_fresh].
Qed.

Lemma dedup_loop_idempotent_witness :
  let a := direct_item video "https://cdn.example/1.mp4" in
  let b := direct_item image "https://cdn.example/2.jpg" in
  dedup_loop [a; b] ∅ [] = Ok [a; b].
Proof.
  intros a b. apply (dedup_loop_idempotent [a; b; a; b; a] [a; b]).
  vm_compute. reflexivity.
Defined.

Lemma traverse_nest (v : json) (n : nat) :
  forall d,
  _traverse_json_for_media (nest n v) d 10 =
  if (d + n <=? 10)%nat then _traverse_json_for_media v (d + n) 10 else [].
Proof.
  induction n as [|n IH]; intros d.
  - rewrite Nat.add_0_r. simpl nest.
    destruct (Nat.leb_spec d 10) as [_|Hgt]; [reflexivity|].
    apply traverse_beyond_bound. lia.
  - change (nest (S n) v) with (PList [nest n v]).
    cbn [_traverse_json_for_media].
    destruct (Nat.ltb_spec 10 d) as [Hgt|Hle].
    + destruct (Nat.leb_spec (d + S n) 10); [lia | reflexivity].
    + rewrite app_nil_r, IH. replace (S d + n)%nat with (d + S n)%nat by lia.
      reflexivity.
Qed.

Lemma traverse_flat (kvs : list (string * json)) (d : nat) :
  scalar_entries kvs = true -> (d <= 10)%nat ->
  _traverse_json_for_media (PDict kvs) d 10
  = _traverse_json_for_media (PDict kvs) 0 10.
Proof.
  intros Hflat Hd. cbn [_traverse_json_for_media].
  destruct (Nat.ltb_spec 10 d) as [Hgt|_]; [lia|]. simpl Nat.ltb. cbv iota.
  induction kvs as [|[k v] kvs IH]; [reflexivity|].
  simpl in Hflat. apply andb_true_iff in Hflat as [Hv Hflat].
  rewrite (IH Hflat). f_equal.
  destruct (is_media_key (lower k)); [reflexivity|].
  destruct v; try reflexivity; discriminate Hv.
Qed.

(** X24: the depth bound is exact. A mapping of plain values inside n
    one-element lists gives the items it gives at the root when n is at
    most 10, and nothing when n is 11 or more. *)
Theorem traverse_depth_cutoff (kvs : list (string * json)) (n : nat) :
  scalar_entries kvs = true ->
  _traverse_json_for_media (nest n (PDict kvs)) 0 10 =
  if (n <=? 10)%nat then _traverse_json_for_media (PDict kvs) 0 10 else [].
Proof.
  intros Hflat. rewrite traverse_nest. simpl Nat.add.
  destruct (Nat.leb_spec n 10) as [Hle|_]; [|reflexivity].
  apply traverse_flat; assumption.
Qed.

Lemma traverse_depth_cutoff_witness :
  let kvs := [("videoUrl", PStr "https://cdn.example/a.mp4")] in
  _traverse_json_for_media (nest 11 (PDict kvs)) 0 10 =
  if (11 <=? 10)%nat then _traverse_json_for_media (PDict kvs) 0 10 else [].
Proof.
  intros kvs. apply (traverse_depth_cutoff kvs 11). reflexivity.
Defined.

End DedupAndDepth.

Section FetchFacts.
Import PyStr Json Regex Extractor.

Variable ld_json_scripts : string -> result (list (option string)).
Variable json_loads : string -> result json.

Lemma extract_NoDup (html : string) :
  NoDup (map url (extract ld_json_scripts json_loads html)).
Proof.
  destruct (extract_cases ld_json_scripts json_loads html)
    as [->|(_ & _ & ->)]; [constructor|].
  apply NoDup_ukey_url.
  pose proof (first_seen_NoDup (media_items ld_json_scripts json_loads html) ∅)
    as Hnd.
  apply (sublist_NoDup _ _ Hnd), sublist_map, sublist_take.
Qed.

(** X25: [fetch_public_content] returns at most 15 items, with
    pairwise distinct urls, and returns items only when the page was
    answered with status 200 and its body could be read, in which case
    they are those of the pipeline on that body. *)
Theorem fetch_public_content_bounds (page : result (Z * result string)) :
  let out := fetch_public_content ld_json_scripts json_loads page in
  (length out <= 15)%nat /\
  NoDup (map url out) /\
  (out <> [] ->
   exists html, page = Ok (200, Ok html) /\
                out = extract ld_json_scripts json_loads html).
Proof.
  destruct page as [[status [html|e]]|e]; simpl;
    try (repeat split; [lia | constructor | intros H; contradiction]).
  destruct (Z.eqb_spec status 200) as [->|Hne].
  - split; [apply extract_at_most_15|]. split; [apply extract_NoDup|].
    intros _. exists html. split; reflexivity.
  - repeat split; [simpl; lia | constructor | intros H; contradiction].
Qed.

End FetchFacts.
